(** * MetadNS: a DNS server backed by Stripe customer metadata

    Shallow embedding of [server.js] (the read path: [parseDomainParts],
    [lookupDnsRecords], [addRecordsToResponse], [_handleRequest]) and of
    [dns-update.js] (the write path: [updateDNSRecord]), together with the
    part of the JavaScript runtime both files rely on: strings, dynamically
    typed values, property access, truthiness, [parseInt] and the
    [JSON.stringify] / [JSON.parse] pair.

    Conventions.
    - A JavaScript string is a [string]: one [ascii] per code unit, so the
      model covers code units below 256.
    - Numbers are kept exact (see [number]); IEEE-754 rounding of integers
      beyond 2^53 is not modelled, and negative zero is zero.
    - An object is the list of its own properties, a new key going last
      (the runtime lists integer-like keys first; nothing here depends on
      the order of the keys of an object). A property that is not an own
      property is looked up in the prototype of the value: reading
      [constructor] or [toString] of a parsed object gives a built-in
      function. The built-ins themselves are opaque, and what is assigned
      to one of them is not tracked. Named properties of arrays and
      assignments to the [length] of an array are not modelled.
    - [console.log] prints nothing that is modelled, but the string
      conversion of what it prints is: it can raise.
    - An exception is a [Throw] result; code that mutates
      [response.answers] threads the answer list explicitly, and keeps it
      when an exception propagates. *)

From Stdlib Require Import List String Ascii ZArith Bool Lia Arith.
From Stdlib Require Import DecimalPos DecimalZ.
Import ListNotations.
Local Open Scope string_scope.
Local Open Scope nat_scope.
Local Open Scope list_scope.

(* ================================================================== *)
(** * JavaScript strings *)
(* ================================================================== *)

Module JsString.

(** [s.split(sep)] for a one-character separator: never empty, and
    [''.split(sep)] is [['']]. *)
Fixpoint split (sep : ascii) (s : string) : list string :=
  match s with
  | EmptyString => [EmptyString]
  | String c r =>
      if Ascii.eqb c sep then EmptyString :: split sep r
      else match split sep r with
           | [] => [String c EmptyString]
           | p :: ps => String c p :: ps
           end
  end.

(** [parts.join(sep)] on an array of strings. *)
Fixpoint join (sep : string) (parts : list string) : string :=
  match parts with
  | [] => EmptyString
  | [p] => p
  | p :: ps => (p ++ sep ++ join sep ps)%string
  end.

(** Relative index of [Array.prototype.slice]: negative counts from the
    end, everything is clamped to [0 .. len]. *)
Definition rel_index (len : nat) (i : Z) : nat :=
  if (i <? 0)%Z then Z.to_nat (Z.max (Z.of_nat len + i) 0)
  else Nat.min (Z.to_nat i) len.

(** [arr.slice(start, end)]; [end] omitted is [None]. *)
Definition slice {T} (start : Z) (end_ : option Z) (arr : list T) : list T :=
  let len := List.length arr in
  let k := rel_index len start in
  let final := match end_ with None => len | Some e => rel_index len e end in
  firstn (final - k) (skipn k arr).

(** WhiteSpace and LineTerminator code units below 256: TAB, LF, VT, FF,
    CR, SP and NBSP. *)
Definition is_white (c : ascii) : bool :=
  let n := nat_of_ascii c in
  ((9 <=? n) && (n <=? 13)) || (n =? 32) || (n =? 160).

Fixpoint trimStart (s : string) : string :=
  match s with
  | EmptyString => EmptyString
  | String c r => if is_white c then trimStart r else s
  end.

Fixpoint trimEnd (s : string) : string :=
  match s with
  | EmptyString => EmptyString
  | String c r =>
      match trimEnd r with
      | EmptyString => if is_white c then EmptyString else String c EmptyString
      | r' => String c r'
      end
  end.

(** [s.trim()] *)
Definition trim (s : string) : string := trimEnd (trimStart s).

(** [s.endsWith(suffix)] *)
Fixpoint endsWith (s suffix : string) : bool :=
  String.eqb s suffix ||
  match s with
  | EmptyString => false
  | String _ r => endsWith r suffix
  end.

(** Does the character occur in the string? *)
Fixpoint contains (c : ascii) (s : string) : bool :=
  match s with
  | EmptyString => false
  | String d r => Ascii.eqb d c || contains c r
  end.

End JsString.

(* ================================================================== *)
(** * JavaScript values *)
(* ================================================================== *)

Inductive error := TypeError | SyntaxError | StripeError.

(** A completion: a value, or a thrown exception. *)
Inductive result (T : Type) : Type :=
| Ok (x : T)
| Throw (e : error).
Arguments Ok {T} x.
Arguments Throw {T} e.

Definition bind {T U} (r : result T) (k : T -> result U) : result U :=
  match r with
  | Ok x => k x
  | Throw e => Throw e
  end.

(** [try { body } catch (e) { handler }] *)
Definition try_catch {T} (body : result T) (handler : error -> result T) : result T :=
  match body with
  | Ok x => Ok x
  | Throw e => handler e
  end.

Declare Scope js_scope.
Delimit Scope js_scope with js.
Notation "x <- r ;; k" := (bind r (fun x => k))
  (at level 61, r at next level, right associativity) : js_scope.

(** A number is [NaN] or the exact decimal [m * 10^e] in normal form:
    [e <= 0], and [m] is not a multiple of ten unless [e = 0]. Integers are
    [Dec z 0]. *)
Inductive number :=
| NaN
| Dec (m : Z) (e : Z).

Definition Int (z : Z) : number := Dec z 0.

(** The kinds of value [JSON.parse] makes, each with its prototype. *)
Inductive kind := CObject | CArray | CString | CNumber | CBoolean.

(** The built-in objects a property read can reach from such a value:
    [Object], [Object.prototype], [Object.prototype.toString] and the
    like. *)
Inductive builtin :=
| Constructor (c : kind)
| Prototype (c : kind)
| Method (c : kind) (name : string).

Unset Elimination Schemes.
Inductive value : Type :=
| VUndefined
| VNull
| VBool (b : bool)
| VNum (n : number)
| VStr (s : string)
| VArr (elems : list value)
| VObj (props : list (string * value))
| VBuiltin (b : builtin).
Set Elimination Schemes.

(** ToBoolean *)
Definition truthy (v : value) : bool :=
  match v with
  | VUndefined | VNull => false
  | VBool b => b
  | VNum NaN => false
  | VNum (Dec m _) => negb (m =? 0)%Z
  | VStr s => negb (s =? "")%string
  | VArr _ | VObj _ | VBuiltin _ => true
  end.

(** [a || b] *)
Definition or_else (a b : value) : value := if truthy a then a else b.

(** Own property of an object, by key. *)
Fixpoint assoc (k : string) (props : list (string * value)) : option value :=
  match props with
  | [] => None
  | (k', v) :: rest => if (k' =? k)%string then Some v else assoc k rest
  end.

(** Property definition: an existing key keeps its place, a new key goes
    last. *)
Fixpoint assoc_set (k : string) (v : value) (props : list (string * value))
  : list (string * value) :=
  match props with
  | [] => [(k, v)]
  | (k', v') :: rest =>
      if (k' =? k)%string then (k, v) :: rest else (k', v') :: assoc_set k v rest
  end.

Definition digit_val (c : ascii) : option nat :=
  let n := nat_of_ascii c in
  if (48 <=? n) && (n <=? 57) then Some (n - 48) else None.

Fixpoint digits_val (acc : nat) (s : string) : option nat :=
  match s with
  | EmptyString => Some acc
  | String c r =>
      match digit_val c with
      | Some d => digits_val (10 * acc + d) r
      | None => None
      end
  end.

(** A canonical array index: ["0"], or decimal digits without a leading
    zero. *)
Definition array_index (k : string) : option nat :=
  match k with
  | EmptyString => None
  | String "0" EmptyString => Some 0
  | String "0" _ => None
  | _ => digits_val 0 k
  end.

Definition opt_value (o : option value) : value :=
  match o with Some v => v | None => VUndefined end.

(** The methods of [c.prototype], by name (ECMAScript 2023, with the
    legacy methods of its annex B); [constructor] and [__proto__] are
    apart, see [inherited]. *)
Definition methods (c : kind) : list string :=
  match c with
  | CObject =>
      ["__defineGetter__"; "__defineSetter__"; "hasOwnProperty"; "__lookupGetter__";
       "__lookupSetter__"; "isPrototypeOf"; "propertyIsEnumerable"; "toString";
       "valueOf"; "toLocaleString"]
  | CArray =>
      ["at"; "concat"; "copyWithin"; "entries"; "every"; "fill"; "filter"; "find";
       "findIndex"; "findLast"; "findLastIndex"; "flat"; "flatMap"; "forEach";
       "includes"; "indexOf"; "join"; "keys"; "lastIndexOf"; "map"; "pop"; "push";
       "reduce"; "reduceRight"; "reverse"; "shift"; "slice"; "some"; "sort"; "splice";
       "toLocaleString"; "toReversed"; "toSorted"; "toSpliced"; "toString"; "unshift";
       "values"; "with"]
  | CString =>
      ["anchor"; "at"; "big"; "blink"; "bold"; "charAt"; "charCodeAt"; "codePointAt";
       "concat"; "endsWith"; "fixed"; "fontcolor"; "fontsize"; "includes"; "indexOf";
       "italics"; "lastIndexOf"; "link"; "localeCompare"; "match"; "matchAll";
       "normalize"; "padEnd"; "padStart"; "repeat"; "replace"; "replaceAll"; "search";
       "slice"; "small"; "split"; "startsWith"; "strike"; "sub"; "substr"; "substring";
       "sup"; "toLocaleLowerCase"; "toLocaleUpperCase"; "toLowerCase"; "toString";
       "toUpperCase"; "trim"; "trimEnd"; "trimLeft"; "trimRight"; "trimStart";
       "valueOf"]
  | CNumber =>
      ["toExponential"; "toFixed"; "toLocaleString"; "toPrecision"; "toString";
       "valueOf"]
  | CBoolean => ["toString"; "valueOf"]
  end.

Definition has_name (k : string) (names : list string) : bool :=
  existsb (String.eqb k) names.

(** The names every object inherits from [Object.prototype]. *)
Definition is_inherited (k : string) : bool :=
  has_name k ("constructor" :: "__proto__" :: methods CObject).

(** A property that a value of kind [c] does not own, read along its
    prototype chain: [c.prototype], then [Object.prototype]. All that is
    found there is a function, but for [__proto__], which reads as the
    prototype itself. *)
Definition inherited (c : kind) (k : string) : value :=
  if (k =? "constructor")%string then VBuiltin (Constructor c)
  else if (k =? "__proto__")%string then VBuiltin (Prototype c)
  else if has_name k (methods c) then VBuiltin (Method c k)
  else if has_name k (methods CObject) then VBuiltin (Method CObject k)
  else VUndefined.

(** [o[k]] as a read. Reading a property of [undefined] or [null] throws a
    TypeError; an own property is read first, then the prototype chain; a
    property found nowhere reads as [undefined]. A built-in has none of the
    properties this program reads from a value that can be one ([A],
    [CNAME], [MX]); its other properties are not modelled. *)
Definition get_prop (o : value) (k : string) : result value :=
  match o with
  | VUndefined | VNull => Throw TypeError
  | VObj props =>
      Ok (match assoc k props with
          | Some v => v
          | None => inherited CObject k
          end)
  | VArr elems =>
      if (k =? "length")%string then Ok (VNum (Int (Z.of_nat (List.length elems))))
      else match array_index k with
           | Some i => Ok (nth i elems VUndefined)
           | None => Ok (inherited CArray k)
           end
  | VStr s =>
      if (k =? "length")%string then Ok (VNum (Int (Z.of_nat (String.length s))))
      else match array_index k with
           | Some i => Ok (match String.get i s with
                           | Some c => VStr (String c EmptyString)
                           | None => VUndefined
                           end)
           | None => Ok (inherited CString k)
           end
  | VNum _ => Ok (inherited CNumber k)
  | VBool _ => Ok (inherited CBoolean k)
  | VBuiltin _ => Ok VUndefined
  end.

(** Is [k] an own property of [o]? *)
Definition has_own (o : value) (k : string) : bool :=
  match o with
  | VObj props => match assoc k props with Some _ => true | None => false end
  | VArr elems =>
      (k =? "length")%string
      || match array_index k with Some i => i <? List.length elems | None => false end
  | VStr s =>
      (k =? "length")%string
      || match array_index k with Some i => i <? String.length s | None => false end
  | _ => false
  end.

(** [arr[i] = v]: inside the array the element is replaced, beyond its end
    the array grows and the gap reads as [undefined]. *)
Fixpoint array_set (i : nat) (v : value) (elems : list value) : list value :=
  match i, elems with
  | 0, [] => [v]
  | 0, _ :: rest => v :: rest
  | S j, [] => VUndefined :: array_set j v []
  | S j, x :: rest => x :: array_set j v rest
  end.

(** [o[k] = v], giving the object after the assignment. Assigning to a
    property of [undefined] or [null] throws a TypeError; on another
    primitive the assignment is silently dropped (both files run in sloppy
    mode). On an object, [__proto__] that is not an own property is the
    setter of [Object.prototype]: it does nothing when [v] is [undefined],
    the one value this program assigns there (with an object or [null] it
    changes the prototype, which is not modelled). Every other inherited
    property is writable and gets shadowed by a new own property. What is
    assigned to a built-in lands in the runtime and is not tracked. Named
    properties of arrays and assignments to their [length] are not
    modelled. *)
Definition set_prop (o : value) (k : string) (v : value) : result value :=
  match o with
  | VUndefined | VNull => Throw TypeError
  | VObj props =>
      if (k =? "__proto__")%string && negb (has_own o k) then Ok o
      else Ok (VObj (assoc_set k v props))
  | VArr elems =>
      match array_index k with
      | Some i => Ok (VArr (array_set i v elems))
      | None => Ok o
      end
  | VBool _ | VNum _ | VStr _ | VBuiltin _ => Ok o
  end.

(** Longest prefix of decimal digits, as its value, and how many there
    are. *)
Fixpoint digit_prefix (acc : Z) (n : nat) (s : string) : Z * nat :=
  match s with
  | EmptyString => (acc, n)
  | String c r =>
      match digit_val c with
      | Some d => digit_prefix (10 * acc + Z.of_nat d) (S n) r
      | None => (acc, n)
      end
  end.

(** [parseInt(s, 10)]: leading white space is skipped, then an optional
    sign, then the longest run of digits; no digit gives [NaN]. *)
Definition parseInt10 (s : string) : number :=
  let s1 := JsString.trimStart s in
  let '(neg, s2) :=
    match s1 with
    | String "-" r => (true, r)
    | String "+" r => (false, r)
    | _ => (false, s1)
    end in
  match digit_prefix 0 0 s2 with
  | (_, 0) => NaN
  | (z, _) => Int (if neg then - z else z)
  end.

(* ================================================================== *)
(** * JSON.stringify and JSON.parse *)
(* ================================================================== *)

Module JSON.

Definition chars (s : string) : list ascii := list_ascii_of_string s.

Definition dquote : ascii := ascii_of_nat 34.
Definition backslash : ascii := ascii_of_nat 92.

(** ** Serialisation *)

Definition hex_digit (n : nat) : ascii :=
  if n <? 10 then ascii_of_nat (48 + n) else ascii_of_nat (87 + n).

(** QuoteJSONString, one code unit at a time. *)
Definition quote_char (c : ascii) : list ascii :=
  let n := nat_of_ascii c in
  if n =? 8 then [backslash; "b"%char]
  else if n =? 9 then [backslash; "t"%char]
  else if n =? 10 then [backslash; "n"%char]
  else if n =? 12 then [backslash; "f"%char]
  else if n =? 13 then [backslash; "r"%char]
  else if n =? 34 then [backslash; dquote]
  else if n =? 92 then [backslash; backslash]
  else if n <? 32 then
    [backslash; "u"%char; "0"%char; "0"%char; hex_digit (n / 16); hex_digit (n mod 16)]
  else [c].

Fixpoint quote_chars (s : string) : list ascii :=
  match s with
  | EmptyString => []
  | String c r => quote_char c ++ quote_chars r
  end.

Definition quote (s : string) : list ascii :=
  dquote :: quote_chars s ++ [dquote].

Fixpoint uint_chars (u : Decimal.uint) : list ascii :=
  match u with
  | Decimal.Nil => []
  | Decimal.D0 r => "0"%char :: uint_chars r
  | Decimal.D1 r => "1"%char :: uint_chars r
  | Decimal.D2 r => "2"%char :: uint_chars r
  | Decimal.D3 r => "3"%char :: uint_chars r
  | Decimal.D4 r => "4"%char :: uint_chars r
  | Decimal.D5 r => "5"%char :: uint_chars r
  | Decimal.D6 r => "6"%char :: uint_chars r
  | Decimal.D7 r => "7"%char :: uint_chars r
  | Decimal.D8 r => "8"%char :: uint_chars r
  | Decimal.D9 r => "9"%char :: uint_chars r
  end.

Definition int_chars (i : Decimal.int) : list ascii :=
  match i with
  | Decimal.Pos u => uint_chars u
  | Decimal.Neg u => "-"%char :: uint_chars u
  end.

(** Decimal expansion of [m * 10^(-k)] for [k > 0]. *)
Definition fixed_chars (m : Z) (k : nat) : list ascii :=
  let ds := uint_chars (N.to_uint (Z.abs_N m)) in
  let n := List.length ds in
  let body :=
    if n <=? k then "0"%char :: "."%char :: repeat "0"%char (k - n) ++ ds
    else firstn (n - k) ds ++ "."%char :: skipn (n - k) ds in
  if (m <? 0)%Z then "-"%char :: body else body.

(** Number::toString as used by JSON: an integer prints its digits, a
    non-finite number prints [null]. (The runtime moves to exponent
    notation from 1e21 on and below 1e-6; no record value gets there.) *)
Definition number_chars (n : number) : list ascii :=
  match n with
  | NaN => chars "null"
  | Dec m e =>
      if (e =? 0)%Z then int_chars (Z.to_int m)
      else fixed_chars m (Z.to_nat (- e))
  end.

Fixpoint join_comma (parts : list (list ascii)) : list ascii :=
  match parts with
  | [] => []
  | [p] => p
  | p :: ps => p ++ ","%char :: join_comma ps
  end.

(** What a built-in prints as: a function as [undefined] does, a
    prototype as the empty value of its kind. *)
Definition builtin_chars (b : builtin) : option (list ascii) :=
  match b with
  | Constructor _ | Method _ _ => None
  | Prototype CObject => Some (chars "{}")
  | Prototype CArray => Some (chars "[]")
  | Prototype CString => Some [dquote; dquote]
  | Prototype CNumber => Some (chars "0")
  | Prototype CBoolean => Some (chars "false")
  end.

(** SerializeJSONProperty. [undefined] inside an array prints [null]; a
    property holding [undefined] is left out of its object. *)
Fixpoint ser (v : value) : list ascii :=
  match v with
  | VUndefined | VNull => chars "null"
  | VBuiltin b => match builtin_chars b with Some cs => cs | None => chars "null" end
  | VBool true => chars "true"
  | VBool false => chars "false"
  | VNum n => number_chars n
  | VStr s => quote s
  | VArr elems => "["%char :: join_comma (List.map ser elems) ++ ["]"%char]
  | VObj props =>
      "{"%char ::
      join_comma
        (List.flat_map
           (fun kv => let '(k, x) := kv in
                      match x with
                      | VUndefined | VBuiltin (Constructor _) | VBuiltin (Method _ _) => []
                      | _ => [quote k ++ ":"%char :: ser x]
                      end) props)
      ++ ["}"%char]
  end.

(** [JSON.stringify(v)]; [None] is the result [undefined]. *)
Definition stringify (v : value) : option string :=
  match v with
  | VUndefined | VBuiltin (Constructor _) | VBuiltin (Method _ _) => None
  | _ => Some (string_of_list_ascii (ser v))
  end.

(** ** Parsing *)

Definition is_ws (c : ascii) : bool :=
  let n := nat_of_ascii c in
  (n =? 32) || (n =? 9) || (n =? 10) || (n =? 13).

Fixpoint skip_ws (s : list ascii) : list ascii :=
  match s with
  | [] => []
  | c :: r => if is_ws c then skip_ws r else s
  end.

Definition hex_val (c : ascii) : option nat :=
  let n := nat_of_ascii c in
  if (48 <=? n) && (n <=? 57) then Some (n - 48)
  else if (97 <=? n) && (n <=? 102) then Some (n - 87)
  else if (65 <=? n) && (n <=? 70) then Some (n - 55)
  else None.

Definition hex4 (a b c d : ascii) : option nat :=
  match hex_val a, hex_val b, hex_val c, hex_val d with
  | Some x, Some y, Some z, Some w => Some (((x * 16 + y) * 16 + z) * 16 + w)
  | _, _, _, _ => None
  end.

(** The character a one-letter escape stands for. *)
Definition unescape (e : ascii) : option ascii :=
  let n := nat_of_ascii e in
  if n =? 34 then Some dquote
  else if n =? 92 then Some backslash
  else if n =? 47 then Some "/"%char
  else if n =? 98 then Some (ascii_of_nat 8)
  else if n =? 102 then Some (ascii_of_nat 12)
  else if n =? 110 then Some (ascii_of_nat 10)
  else if n =? 114 then Some (ascii_of_nat 13)
  else if n =? 116 then Some (ascii_of_nat 9)
  else None.

(** One step inside a string literal: [Some (None, r)] at the closing
    quote, [Some (Some c, r)] for a character, [None] on an error. A
    [\u] escape of a code unit above 255 is outside the model and is
    refused. *)
Definition read_char (s : list ascii) : option (option ascii * list ascii) :=
  match s with
  | [] => None
  | c :: r =>
      if Ascii.eqb c dquote then Some (None, r)
      else if Ascii.eqb c backslash then
        match r with
        | [] => None
        | e :: r1 =>
            if Ascii.eqb e "u" then
              match r1 with
              | h1 :: h2 :: h3 :: h4 :: r2 =>
                  match hex4 h1 h2 h3 h4 with
                  | Some n => if n <? 256 then Some (Some (ascii_of_nat n), r2) else None
                  | None => None
                  end
              | _ => None
              end
            else match unescape e with
                 | Some d => Some (Some d, r1)
                 | None => None
                 end
        end
      else if nat_of_ascii c <? 32 then None
      else Some (Some c, r)
  end.

(** The rest of a string literal, after its opening quote. *)
Fixpoint read_string (fuel : nat) (s : list ascii) : option (string * list ascii) :=
  match fuel with
  | 0 => None
  | S f =>
      match read_char s with
      | None => None
      | Some (None, r) => Some (EmptyString, r)
      | Some (Some c, r) =>
          match read_string f r with
          | Some (t, r') => Some (String c t, r')
          | None => None
          end
      end
  end.

Definition uint_digit (c : ascii) : option (Decimal.uint -> Decimal.uint) :=
  let n := nat_of_ascii c in
  if n =? 48 then Some Decimal.D0 else if n =? 49 then Some Decimal.D1
  else if n =? 50 then Some Decimal.D2 else if n =? 51 then Some Decimal.D3
  else if n =? 52 then Some Decimal.D4 else if n =? 53 then Some Decimal.D5
  else if n =? 54 then Some Decimal.D6 else if n =? 55 then Some Decimal.D7
  else if n =? 56 then Some Decimal.D8 else if n =? 57 then Some Decimal.D9
  else None.

(** Longest run of digits. *)
Fixpoint read_digits (s : list ascii) : Decimal.uint * list ascii :=
  match s with
  | [] => (Decimal.Nil, [])
  | c :: r =>
      match uint_digit c with
      | Some d => let '(u, r') := read_digits r in (d u, r')
      | None => (Decimal.Nil, s)
      end
  end.

Fixpoint strip_zeros (fuel : nat) (m e : Z) : number :=
  match fuel with
  | 0 => Dec m e
  | S f => if (m mod 10 =? 0)%Z then strip_zeros f (m / 10) (e + 1) else Dec m e
  end.

(** Normal form of [m * 10^e]. *)
Definition normalise (m e : Z) : number :=
  if (m =? 0)%Z then Dec 0 0
  else if (0 <=? e)%Z then Dec (m * 10 ^ e) 0
  else strip_zeros (Z.to_nat (- e)) m e.

(** An optional minus sign. *)
Definition read_minus (s : list ascii) : bool * list ascii :=
  match s with
  | "-"%char :: r => (true, r)
  | _ => (false, s)
  end.

(** The integer part has a digit, and no leading zero. *)
Definition int_ok (ip : Decimal.uint) : bool :=
  match ip with
  | Decimal.Nil => false
  | Decimal.D0 Decimal.Nil => true
  | Decimal.D0 _ => false
  | _ => true
  end.

(** An optional fraction: a point and at least one digit. *)
Definition read_frac (s : list ascii) : option (Decimal.uint * list ascii) :=
  match s with
  | "."%char :: r =>
      match read_digits r with
      | (Decimal.Nil, _) => None
      | (fp, s') => Some (fp, s')
      end
  | _ => Some (Decimal.Nil, s)
  end.

(** The digits of an exponent, after [e] or [E]: an optional sign and at
    least one digit. *)
Definition read_exp_digits (r : list ascii) : option (Z * list ascii) :=
  let '(eneg, r1) :=
    match r with
    | "-"%char :: r0 => (true, r0)
    | "+"%char :: r0 => (false, r0)
    | _ => (false, r)
    end in
  match read_digits r1 with
  | (Decimal.Nil, _) => None
  | (x, s') => Some (if eneg then (- Z.of_uint x)%Z else Z.of_uint x, s')
  end.

(** An optional exponent. *)
Definition read_exp (s : list ascii) : option (Z * list ascii) :=
  match s with
  | "e"%char :: r => read_exp_digits r
  | "E"%char :: r => read_exp_digits r
  | _ => Some (0%Z, s)
  end.

(** JSON number: [-? int frac? exp?], where [int] has no leading zero. *)
Definition read_number (s : list ascii) : option (number * list ascii) :=
  let '(neg, s1) := read_minus s in
  let '(ip, s2) := read_digits s1 in
  if negb (int_ok ip) then None else
  match read_frac s2 with
  | None => None
  | Some (fp, s3) =>
      match read_exp s3 with
      | None => None
      | Some (x, s4) =>
          let m := Z.of_uint (Decimal.app ip fp) in
          Some (normalise (if neg then (- m)%Z else m)
                          (x - Z.of_nat (Decimal.nb_digits fp)), s4)
      end
  end.

(** Strip a literal prefix. *)
Fixpoint expect (lit s : list ascii) : option (list ascii) :=
  match lit, s with
  | [], _ => Some s
  | l :: lit', c :: r => if Ascii.eqb l c then expect lit' r else None
  | _ :: _, [] => None
  end.

(** Properties in textual order become an object: a repeated key keeps
    its first place and its last value. *)
Definition collect (members : list (string * value)) : value :=
  VObj (fold_left (fun props kv => assoc_set (fst kv) (snd kv) props) members []).

(** Skip white space and require one character. *)
Definition peek_is (c : ascii) (s : list ascii) : option (list ascii) :=
  match skip_ws s with
  | [] => None
  | d :: r => if Ascii.eqb d c then Some r else None
  end.

Fixpoint parse_value (fuel : nat) (s : list ascii) : option (value * list ascii) :=
  match fuel with
  | 0 => None
  | S f =>
      match skip_ws s with
      | [] => None
      | c :: r =>
          if Ascii.eqb c "{" then
            match peek_is "}" r with
            | Some r' => Some (VObj [], r')
            | None => match parse_members f r with
                      | Some (ms, r') => Some (collect ms, r')
                      | None => None
                      end
            end
          else if Ascii.eqb c "[" then
            match peek_is "]" r with
            | Some r' => Some (VArr [], r')
            | None => match parse_elements f r with
                      | Some (vs, r') => Some (VArr vs, r')
                      | None => None
                      end
            end
          else if Ascii.eqb c dquote then
            match read_string (List.length r) r with
            | Some (t, r') => Some (VStr t, r')
            | None => None
            end
          else if Ascii.eqb c "t" then
            match expect (chars "rue") r with
            | Some r' => Some (VBool true, r')
            | None => None
            end
          else if Ascii.eqb c "f" then
            match expect (chars "alse") r with
            | Some r' => Some (VBool false, r')
            | None => None
            end
          else if Ascii.eqb c "n" then
            match expect (chars "ull") r with
            | Some r' => Some (VNull, r')
            | None => None
            end
          else
            match read_number (c :: r) with
            | Some (n, r') => Some (VNum n, r')
            | None => None
            end
      end
  end

with parse_elements (fuel : nat) (s : list ascii) : option (list value * list ascii) :=
  match fuel with
  | 0 => None
  | S f =>
      match parse_value f s with
      | None => None
      | Some (v, r) =>
          match peek_is "," r with
          | Some r1 =>
              match parse_elements f r1 with
              | Some (vs, r2) => Some (v :: vs, r2)
              | None => None
              end
          | None =>
              match peek_is "]" r with
              | Some r1 => Some ([v], r1)
              | None => None
              end
          end
      end
  end

with parse_members (fuel : nat) (s : list ascii)
  : option (list (string * value) * list ascii) :=
  match fuel with
  | 0 => None
  | S f =>
      match peek_is dquote s with
      | None => None
      | Some r =>
          match read_string (List.length r) r with
          | None => None
          | Some (k, r1) =>
              match peek_is ":" r1 with
              | None => None
              | Some r2 =>
                  match parse_value f r2 with
                  | None => None
                  | Some (v, r3) =>
                      match peek_is "," r3 with
                      | Some r4 =>
                          match parse_members f r4 with
                          | Some (ms, r5) => Some ((k, v) :: ms, r5)
                          | None => None
                          end
                      | None =>
                          match peek_is "}" r3 with
                          | Some r4 => Some ([(k, v)], r4)
                          | None => None
                          end
                      end
                  end
              end
          end
      end
  end.

(** [JSON.parse(text)]: one value, white space around it, nothing else;
    anything else is a SyntaxError. *)
Definition parse (text : string) : result value :=
  let s := chars text in
  match parse_value (S (List.length s)) s with
  | Some (v, r) =>
      match skip_ws r with
      | [] => Ok v
      | _ :: _ => Throw SyntaxError
      end
  | None => Throw SyntaxError
  end.

(** ** What the parser meets in a printed text *)

(** The text does not go on with a digit. *)
Definition no_digit (rest : list ascii) : Prop :=
  match rest with
  | [] => True
  | c :: _ => uint_digit c = None
  end.

(** The first character of a number. *)
Definition number_start (c : ascii) : bool :=
  Ascii.eqb c "-" || match uint_digit c with Some _ => true | None => false end.

(** The text of one property. *)
Definition member (kv : string * value) : list ascii :=
  quote (fst kv) ++ ":"%char :: ser (snd kv).

End JSON.

(* ================================================================== *)
(** * Stateful code: a state and exception monad *)
(* ================================================================== *)

(** A computation over a mutable object of type [S]: it ends with a value
    or an exception, and in both cases leaves the object as mutated so
    far. *)
Definition ST (S T : Type) : Type := S -> result T * S.

Definition ret {S T} (x : T) : ST S T := fun s => (Ok x, s).

Definition lift {S T} (r : result T) : ST S T := fun s => (r, s).

Definition bindST {S T U} (m : ST S T) (k : T -> ST S U) : ST S U :=
  fun s =>
    match m s with
    | (Ok x, s') => k x s'
    | (Throw e, s') => (Throw e, s')
    end.

(** [try { body } catch (e) { handler }]: the handler starts from the
    state the body left behind. *)
Definition try_catchST {S T} (body : ST S T) (handler : error -> ST S T) : ST S T :=
  fun s =>
    match body s with
    | (Ok x, s') => (Ok x, s')
    | (Throw e, s') => handler e s'
    end.

Declare Scope st_scope.
Delimit Scope st_scope with st.
Notation "x <- m ;; k" := (bindST m (fun x => k))
  (at level 61, m at next level, right associativity) : st_scope.
Notation "m ;; k" := (bindST m (fun _ => k))
  (at level 61, right associativity) : st_scope.

(** [arr.forEach(callback)] on an array. *)
Fixpoint forEach_list {S} (callback : value -> ST S unit) (elems : list value) : ST S unit :=
  match elems with
  | [] => ret tt
  | x :: rest => (callback x ;; forEach_list callback rest)%st
  end.

(** [v.forEach(callback)]: only an array has the method ([Array.prototype]
    is an array without elements); calling it on anything else is a
    TypeError. *)
Definition forEach {S} (v : value) (callback : value -> ST S unit) : ST S unit :=
  match v with
  | VArr elems => forEach_list callback elems
  | VBuiltin (Prototype CArray) => ret tt
  | _ => lift (Throw TypeError)
  end.

(** ** String conversion and the console *)

(** What a built-in converts to: a function to its source text, a
    prototype as the empty value of its kind does. *)
Definition builtin_string (b : builtin) : string :=
  match b with
  | Constructor CObject => "function Object() { [native code] }"
  | Constructor CArray => "function Array() { [native code] }"
  | Constructor CString => "function String() { [native code] }"
  | Constructor CNumber => "function Number() { [native code] }"
  | Constructor CBoolean => "function Boolean() { [native code] }"
  | Method _ name => "function " ++ name ++ "() { [native code] }"
  | Prototype CObject => "[object Object]"
  | Prototype CArray | Prototype CString => ""
  | Prototype CNumber => "0"
  | Prototype CBoolean => "false"
  end.

(** ToString, as a template literal applies it to a substitution. An array
    joins the conversions of its elements with commas, [null] and
    [undefined] counting as empty. An object is converted by its
    [toString] method: [Object.prototype]'s gives ["[object Object]"]; an
    own property [toString] is not a function (it was parsed from JSON), and
    then neither [valueOf] helps: a TypeError. *)
Fixpoint ToString (v : value) : result string :=
  match v with
  | VUndefined => Ok "undefined"
  | VNull => Ok "null"
  | VBool true => Ok "true"
  | VBool false => Ok "false"
  | VNum NaN => Ok "NaN"
  | VNum n => Ok (string_of_list_ascii (JSON.number_chars n))
  | VStr s => Ok s
  | VArr elems =>
      (fix join (xs : list value) : result string :=
         match xs with
         | [] => Ok ""
         | x :: rest =>
             (head <- match x with
                      | VUndefined | VNull => Ok ""
                      | _ => ToString x
                      end ;;
              match rest with
              | [] => Ok head
              | _ :: _ => tail <- join rest ;; Ok (head ++ "," ++ tail)%string
              end)%js
         end) elems
  | VObj props =>
      match assoc "toString" props with
      | Some _ => Throw TypeError
      | None => Ok "[object Object]"
      end
  | VBuiltin b => Ok (builtin_string b)
  end.

(** [console.log(text)] *)
Definition console_log {S} (text : string) : ST S unit := ret tt.

(* ================================================================== *)
(** * The store: Stripe customers and their metadata *)
(* ================================================================== *)

Module Stripe.

Record customer := {
  id : nat;
  email : string;
  name : string;
  metadata : list (string * string)
}.

(** The account: whether the API answers at all, and the customers,
    newest first. *)
Record t := {
  up : bool;
  customers : list customer
}.

Fixpoint get (k : string) (m : list (string * string)) : option string :=
  match m with
  | [] => None
  | (k', v) :: rest => if (k' =? k)%string then Some v else get k rest
  end.

Fixpoint remove (k : string) (m : list (string * string)) : list (string * string) :=
  match m with
  | [] => []
  | (k', v) :: rest => if (k' =? k)%string then remove k rest else (k', v) :: remove k rest
  end.

(** Metadata keys are merged one by one; an empty value unsets its
    key. *)
Definition put (k v : string) (m : list (string * string)) : list (string * string) :=
  match v with
  | EmptyString => remove k m
  | _ => remove k m ++ [(k, v)]
  end.

(** A metadata value holds at most 500 characters. *)
Definition value_limit : nat := 500.

(** [stripe.customers.list({limit, email})] *)
Definition customers_list (limit : nat) (mail : string) : ST t (list customer) :=
  fun st =>
    if up st
    then (Ok (firstn limit (filter (fun c => (email c =? mail)%string) (customers st))), st)
    else (Throw StripeError, st).

Definition fresh_id (st : t) : nat :=
  S (fold_right (fun c n => Nat.max (id c) n) 0 (customers st)).

(** [stripe.customers.create({email, name})] *)
Definition customers_create (mail nm : string) : ST t customer :=
  fun st =>
    if up st
    then let c := {| id := fresh_id st; email := mail; name := nm; metadata := [] |} in
         (Ok c, {| up := true; customers := c :: customers st |})
    else (Throw StripeError, st).

Definition set_metadata (updates : list (string * string)) (c : customer) : customer :=
  {| id := id c; email := email c; name := name c;
     metadata := fold_left (fun m kv => put (fst kv) (snd kv) m) updates (metadata c) |}.

(** [stripe.customers.update(id, {metadata})] *)
Definition customers_update (cid : nat) (updates : list (string * string)) : ST t unit :=
  fun st =>
    if up st
       && existsb (fun c => id c =? cid) (customers st)
       && forallb (fun kv => String.length (snd kv) <=? value_limit) updates
    then (Ok tt,
          {| up := true;
             customers := List.map (fun c => if id c =? cid then set_metadata updates c else c)
                                   (customers st) |})
    else (Throw StripeError, st).

End Stripe.

(* ================================================================== *)
(** * server.js *)
(* ================================================================== *)

(** The constants of the [dns2] packet library that the server uses. *)
Module Packet.
Module TYPE.
Definition A : Z := 1.
Definition CNAME : Z := 5.
Definition MX : Z := 15.
End TYPE.
Module CLASS.
Definition IN : Z := 1.
End CLASS.
End Packet.

(** The type-specific fields spread into an answer. *)
Inductive record :=
| Address (address : value)
| Domain (domain : value)
| Exchange (priority exchange : value).

Record answer := {
  name : string;
  type : Z;
  class : Z;
  ttl : Z;
  rdata : record
}.

Record question := { qname : string; qtype : Z }.

Record DomainParts := { topDomain : string; subdomain : string }.

(** [a || b] on strings: the empty string is falsy. *)
Definition str_or (a b : string) : string :=
  match a with EmptyString => b | _ => a end.

(** [parseDomainParts]:
<<
    const domainParts = name.split('.');
    const topDomain = domainParts.slice(-2).join('.');
    const subdomain = domainParts.slice(0, -2).join('.') || '@';
>> *)
Definition parseDomainParts (name : string) : DomainParts :=
  let domainParts := JsString.split "." name in
  {| topDomain := JsString.join "." (JsString.slice (-2) None domainParts);
     subdomain := str_or (JsString.join "." (JsString.slice 0 (Some (-2)%Z) domainParts)) "@" |}.

(** [customers.data[0].metadata.dns_records || '{}'] *)
Definition dns_records_text (c : Stripe.customer) : string :=
  match Stripe.get "dns_records" (Stripe.metadata c) with
  | Some s => str_or s "{}"
  | None => "{}"
  end.

(** The body of the inner [try] of [lookupDnsRecords]:
<<
    let recordSet = dnsRecords[subdomain];
    if (!recordSet && subdomain !== '@') { recordSet = dnsRecords['*']; }
    return recordSet || null;
>> *)
Definition resolve (dnsRecords : value) (subdomain : string) : result value :=
  (recordSet <- get_prop dnsRecords subdomain ;;
   recordSet <- (if negb (truthy recordSet) && negb (subdomain =? "@")%string
                 then get_prop dnsRecords "*"
                 else Ok recordSet) ;;
   Ok (or_else recordSet VNull))%js.

(** [lookupDnsRecords]: both [catch] blocks log and return [null]. *)
Definition lookupDnsRecords (domain subdomain : string) : ST Stripe.t value :=
  try_catchST
    (customers <- Stripe.customers_list 1 ("dns@" ++ domain) ;;
     match customers with
     | [] => ret VNull
     | c :: _ =>
         lift (try_catch
                 (dnsRecords <- JSON.parse (dns_records_text c) ;;
                  resolve dnsRecords subdomain)%js
                 (fun e => Ok VNull))
     end)%st
    (fun error => ret VNull).

(** [addRecord]: push [{name, type, class: IN, ttl: 300, ...record}]. *)
Definition addRecord (name : string) (type : Z) (r : record) : ST (list answer) unit :=
  fun answers =>
    (Ok tt,
     answers ++ [{| name := name; type := type; class := Packet.CLASS.IN;
                    ttl := 300; rdata := r |}]).

(** [len > 0] for the length of an array. *)
Definition gt_zero (len : value) : bool :=
  match len with
  | VNum (Dec m _) => (0 <? m)%Z
  | _ => false
  end.

(** The callback of the A case:
<<
    ip => { console.log(`Adding A record: ${ip}`);
            this.addRecord(response, name, Packet.TYPE.A, { address: ip }); }
>> *)
Definition add_A (name : string) (ip : value) : ST (list answer) unit :=
  (text <- lift (ToString ip) ;;
   console_log ("Adding A record: " ++ text) ;;
   addRecord name Packet.TYPE.A (Address ip))%st.

(** The CNAME answer, in the A case and in the CNAME case:
<<
    console.log(`Adding CNAME record: ${recordSet.CNAME[0]}`);
    this.addRecord(response, name, Packet.TYPE.CNAME, { domain: recordSet.CNAME[0] });
>> *)
Definition add_CNAME (name : string) (cname : value) : ST (list answer) unit :=
  (logged <- lift (get_prop cname "0") ;;
   text <- lift (ToString logged) ;;
   console_log ("Adding CNAME record: " ++ text) ;;
   first <- lift (get_prop cname "0") ;;
   addRecord name Packet.TYPE.CNAME (Domain first))%st.

(** The callback of the MX case:
<<
    mx => { console.log(`Adding MX record: ${mx.exchange} (preference: ${mx.priority})`);
            this.addRecord(response, name, Packet.TYPE.MX,
                           { priority: mx.priority, exchange: mx.exchange }); }
>> *)
Definition add_MX (name : string) (mx : value) : ST (list answer) unit :=
  (exchange <- lift (get_prop mx "exchange") ;;
   exchangeText <- lift (ToString exchange) ;;
   priority <- lift (get_prop mx "priority") ;;
   priorityText <- lift (ToString priority) ;;
   console_log ("Adding MX record: " ++ exchangeText
                ++ " (preference: " ++ priorityText ++ ")") ;;
   priority <- lift (get_prop mx "priority") ;;
   exchange <- lift (get_prop mx "exchange") ;;
   addRecord name Packet.TYPE.MX (Exchange priority exchange))%st.

(** [addRecordsToResponse]: the [switch] on the query type. *)
Definition addRecordsToResponse (name : string) (recordSet : value) (type : Z)
  : ST (list answer) bool :=
  (if (type =? Packet.TYPE.A)%Z then
     a <- lift (get_prop recordSet "A") ;;
     if truthy a then
       forEach a (add_A name) ;;
       ret true
     else
       cname <- lift (get_prop recordSet "CNAME") ;;
       if truthy cname then
         add_CNAME name cname ;;
         ret true
       else ret false
   else if (type =? Packet.TYPE.CNAME)%Z then
     cname <- lift (get_prop recordSet "CNAME") ;;
     if truthy cname then
       add_CNAME name cname ;;
       ret true
     else ret false
   else if (type =? Packet.TYPE.MX)%Z then
     mx <- lift (get_prop recordSet "MX") ;;
     let mxRecords := or_else mx (VArr []) in
     forEach mxRecords (add_MX name) ;;
     len <- lift (get_prop mxRecords "length") ;;
     ret (gt_zero len)
   else ret false)%st.

(** The answer pushed by the [catch] block of [_handleRequest]. *)
Definition fallback (name : string) : answer :=
  {| name := name; type := Packet.TYPE.A; class := Packet.CLASS.IN;
     ttl := 300; rdata := Address (VStr "127.0.0.1") |}.

(** The [try] block of [_handleRequest], over the store (read only) and the
    answers of the response. *)
Definition pipeline (stripe : Stripe.t) (name : string) (type : Z) : ST (list answer) unit :=
  (let parts := parseDomainParts name in
   recordSet <- lift (fst (lookupDnsRecords (topDomain parts) (subdomain parts) stripe)) ;;
   if truthy recordSet then
     addRecordsToResponse name recordSet type ;; ret tt
   else ret tt)%st.

(** [_handleRequest], giving the answers of the response that is sent. A
    request without a question fails before the [try] and sends nothing. *)
Definition _handleRequest (stripe : Stripe.t) (questions : list question)
  : result (list answer) :=
  match questions with
  | [] => Throw TypeError
  | q :: _ =>
      let name := qname q in
      let handled :=
        try_catchST (pipeline stripe name (qtype q))
                    (fun error answers => (Ok tt, answers ++ [fallback name])) in
      Ok (snd (handled []))
  end.

(* ================================================================== *)
(** * dns-update.js *)
(* ================================================================== *)

(** [xs.map(f)] where [f] may throw: the first exception ends the loop. *)
Fixpoint mapM {T U} (f : T -> result U) (xs : list T) : result (list U) :=
  match xs with
  | [] => Ok []
  | x :: rest => (y <- f x ;; ys <- mapM f rest ;; Ok (y :: ys))%js
  end.

(** [exchange.endsWith('.') ? exchange : `${exchange}.`] *)
Definition with_dot (exchange : string) : string :=
  if JsString.endsWith exchange "." then exchange else (exchange ++ ".")%string.

(** One MX segment:
<<
    const [priority, exchange] = v.trim().split(' ');
    return { priority: parseInt(priority, 10),
             exchange: exchange.endsWith('.') ? exchange : `${exchange}.` };
>>
    Without a second piece [exchange] is [undefined] and [endsWith]
    throws. *)
Definition formatMX (v : string) : result value :=
  match JsString.split " " (JsString.trim v) with
  | priority :: exchange :: _ =>
      Ok (VObj [("priority", VNum (parseInt10 priority));
                ("exchange", VStr (with_dot exchange))])
  | _ => Throw TypeError
  end.

(** The value written for a record type; a type other than A, CNAME and
    MX leaves [formattedValue] undefined. *)
Definition formatValue (recordType rawValue : string) : result value :=
  if (recordType =? "A")%string || (recordType =? "CNAME")%string then
    Ok (VArr (List.map (fun v => VStr (JsString.trim v)) (JsString.split "," rawValue)))
  else if (recordType =? "MX")%string then
    (entries <- mapM formatMX (JsString.split "," rawValue) ;; Ok (VArr entries))%js
  else Ok VUndefined.

(** [subdomain === '@' || subdomain === '' ? '@' : subdomain] *)
Definition formatSubdomain (subdomain : string) : string :=
  if (subdomain =? "@")%string || (subdomain =? "")%string then "@" else subdomain.

(** The update of the record set:
<<
    if (!dnsRecords[sub]) { dnsRecords[sub] = {}; }
    dnsRecords[sub][recordType] = formattedValue;
>>
    The second statement mutates the object that [dnsRecords[sub]]
    evaluates to. When that is an own property of [dnsRecords], the entry
    object is shared with [dnsRecords]: here the mutated entry is put back
    in its place. When it is inherited, it is a built-in of the runtime:
    the assignment lands there and [dnsRecords] is as before. *)
Definition merge (dnsRecords : value) (sub recordType : string) (formattedValue : value)
  : result value :=
  (current <- get_prop dnsRecords sub ;;
   dnsRecords <- (if negb (truthy current)
                  then set_prop dnsRecords sub (VObj [])
                  else Ok dnsRecords) ;;
   entry <- get_prop dnsRecords sub ;;
   entry <- set_prop entry recordType formattedValue ;;
   if has_own dnsRecords sub then set_prop dnsRecords sub entry else Ok dnsRecords)%js.

(** The existing records of a customer: a blob that does not parse is
    logged and replaced by [{}]. *)
Definition existing_records (c : Stripe.customer) : value :=
  match JSON.parse (dns_records_text c) with
  | Ok v => v
  | Throw _ => VObj []
  end.

(** The metadata sent to Stripe. *)
Definition new_metadata (domain : string) (dnsRecords : value) : list (string * string) :=
  match JSON.stringify dnsRecords with
  | Some text => [("dns_domain", domain); ("dns_records", text)]
  | None => [("dns_domain", domain)]
  end.

(** [updateDNSRecord]: the whole body runs inside one [try]; the [catch]
    logs the error and returns. *)
Definition updateDNSRecord (domain subdomain recordType rawValue : string)
  : ST Stripe.t unit :=
  try_catchST
    (customers <- Stripe.customers_list 1 ("dns@" ++ domain) ;;
     found <- match customers with
              | c :: _ => ret (c, existing_records c)
              | [] =>
                  c <- Stripe.customers_create ("dns@" ++ domain)
                                               ("DNS records for " ++ domain) ;;
                  ret (c, VObj [])
              end ;;
     let '(customer, dnsRecords) := found in
     let sub := formatSubdomain subdomain in
     formattedValue <- lift (formatValue recordType rawValue) ;;
     dnsRecords <- lift (merge dnsRecords sub recordType formattedValue) ;;
     Stripe.customers_update (Stripe.id customer) (new_metadata domain dnsRecords))%st
    (fun error => ret tt).

(** The top level of the tool, from [process.argv] to the exit status:
<<
    const args = process.argv.slice(2);
    if (args.length < 4) { ...usage...; process.exit(1); }
    const [domain, subdomain, recordType, value] = args;
    updateDNSRecord(domain, subdomain, recordType, value);
>>
    The process ends with status 0 once the update has returned. *)
Definition main (argv : list string) : ST Stripe.t Z :=
  let args := JsString.slice 2 None argv in
  if List.length args <? 4 then ret 1%Z
  else match args with
       | domain :: subdomain :: recordType :: value :: _ =>
           (updateDNSRecord domain subdomain recordType value ;; ret 0%Z)%st
       | _ => ret 1%Z
       end.

(* ================================================================== *)
(** * The record data model *)
(* ================================================================== *)

Inductive RecordType := A | CNAME | MX.

Inductive RecordValue :=
| AValue (address : string)
| CNAMEValue (target : string)
| MXValue (priority : Z) (exchange : string).

(** A type maps to its values in stored order; a label maps to its types.
    Both are kept in property order, as the stored object has them. *)
Definition TypeRecords : Type := list (RecordType * list RecordValue).
Definition RecordSet : Type := list (string * TypeRecords).

Definition type_name (t : RecordType) : string :=
  match t with A => "A" | CNAME => "CNAME" | MX => "MX" end.

Definition RecordType_eqb (t u : RecordType) : bool :=
  match t, u with
  | A, A | CNAME, CNAME | MX, MX => true
  | _, _ => false
  end.

Fixpoint values_of (t : RecordType) (tr : TypeRecords) : option (list RecordValue) :=
  match tr with
  | [] => None
  | (u, vs) :: rest => if RecordType_eqb u t then Some vs else values_of t rest
  end.

Fixpoint records_of (label : string) (rs : RecordSet) : option TypeRecords :=
  match rs with
  | [] => None
  | (l, tr) :: rest => if (l =? label)%string then Some tr else records_of label rest
  end.

(** The stored shape of the data model: an address or a target is a
    string, an MX value is [{priority, exchange}]. *)
Definition js_of_value (v : RecordValue) : value :=
  match v with
  | AValue address => VStr address
  | CNAMEValue target => VStr target
  | MXValue priority exchange =>
      VObj [("priority", VNum (Int priority)); ("exchange", VStr exchange)]
  end.

Definition js_of_records (tr : TypeRecords) : value :=
  VObj (List.map (fun e => (type_name (fst e), VArr (List.map js_of_value (snd e)))) tr).

Definition js_of_set (rs : RecordSet) : value :=
  VObj (List.map (fun e => (fst e, js_of_records (snd e))) rs).

(** A value has the variant of the type it is stored under. *)
Definition value_of_type (t : RecordType) (v : RecordValue) : bool :=
  match t, v with
  | A, AValue _ | CNAME, CNAMEValue _ | MX, MXValue _ _ => true
  | _, _ => false
  end.

Fixpoint distinct {K} (eqb : K -> K -> bool) (ks : list K) : bool :=
  match ks with
  | [] => true
  | k :: rest => negb (existsb (eqb k) rest) && distinct eqb rest
  end.

Definition valid_records (tr : TypeRecords) : bool :=
  distinct RecordType_eqb (List.map fst tr)
  && forallb (fun e => forallb (value_of_type (fst e)) (snd e)) tr.

(** A valid record set: labels are unique, and so are the types under a
    label; every value has the variant of its type. *)
Definition valid_set (rs : RecordSet) : bool :=
  distinct String.eqb (List.map fst rs) && forallb (fun e => valid_records (snd e)) rs.

(** The answers a stored value sequence stands for. *)
Definition answer_of (name : string) (t : RecordType) (v : RecordValue) : answer :=
  {| name := name;
     type := match t with
             | A => Packet.TYPE.A
             | CNAME => Packet.TYPE.CNAME
             | MX => Packet.TYPE.MX
             end;
     class := Packet.CLASS.IN;
     ttl := 300;
     rdata := match v with
              | AValue address => Address (VStr address)
              | CNAMEValue target => Domain (VStr target)
              | MXValue priority exchange => Exchange (VNum (Int priority)) (VStr exchange)
              end |}.

(** The answers [addRecordsToResponse] adds to an empty response. *)
Definition answers_for (name : string) (recordSet : value) (type : Z) : list answer :=
  snd (addRecordsToResponse name recordSet type []).

(** ** The specification's wording, where it differs from the code *)

(** Modelled on the specification's sentence for MX values: a segment is
    split at its first white-space character into the text before it and
    the text after it. *)
Fixpoint split_first_white (s : string) : string * string :=
  match s with
  | EmptyString => (EmptyString, EmptyString)
  | String c r =>
      if JsString.is_white c then (EmptyString, r)
      else let '(p, x) := split_first_white r in (String c p, x)
  end.

Definition spec_formatMX (rawValue : string) : value :=
  VArr (List.map
          (fun segment =>
             let '(priority, exchange) := split_first_white segment in
             VObj [("priority", VNum (parseInt10 priority));
                   ("exchange", VStr (with_dot exchange))])
          (JsString.split "," rawValue)).

(** The object written for one MX segment. *)
Definition mx_entry (priority exchange : string) : value :=
  VObj [("priority", VNum (parseInt10 priority));
        ("exchange",
         VStr (if JsString.endsWith exchange "." then exchange
               else (exchange ++ ".")%string))].

(** The properties of a label's entry; none when the label has no entry,
    or a falsy one. *)
Definition entry_props (entry : option value) : list (string * value) :=
  match entry with
  | Some (VObj props) => props
  | _ => []
  end.

(** What a record object stores under (label, type): own properties only,
    which is what [JSON.stringify] writes; [undefined] when there is no
    such pair. *)
Definition read2 (d : value) (label type : string) : value :=
  match d with
  | VObj props => opt_value (assoc type (entry_props (assoc label props)))
  | _ => VUndefined
  end.

(** The three ways a read can fail softly. *)
Inductive soft_failure (stripe : Stripe.t) (domain : string) : Prop :=
| unknown_apex :
    fst (Stripe.customers_list 1 ("dns@" ++ domain) stripe) = Ok [] ->
    soft_failure stripe domain
| lookup_error e :
    fst (Stripe.customers_list 1 ("dns@" ++ domain) stripe) = Throw e ->
    soft_failure stripe domain
| decode_error c cs e :
    fst (Stripe.customers_list 1 ("dns@" ++ domain) stripe) = Ok (c :: cs) ->
    JSON.parse (dns_records_text c) = Throw e ->
    soft_failure stripe domain.

(** The answers an entry gives to a query of each type. *)
Definition expected (queryName : string) (tr : TypeRecords) (ty : Z) : list answer :=
  let cname :=
    match values_of CNAME tr with
    | Some (c :: _) => [answer_of queryName CNAME c]
    | Some [] =>
        [{| name := queryName; type := Packet.TYPE.CNAME; class := Packet.CLASS.IN;
            ttl := 300; rdata := Domain VUndefined |}]
    | None => []
    end in
  if (ty =? Packet.TYPE.A)%Z then
    match values_of A tr with
    | Some vs => List.map (answer_of queryName A) vs
    | None => cname
    end
  else if (ty =? Packet.TYPE.CNAME)%Z then cname
  else if (ty =? Packet.TYPE.MX)%Z then
    match values_of MX tr with
    | Some vs => List.map (answer_of queryName MX) vs
    | None => []
    end
  else [].

(** ** Sample data *)

Definition two_cnames : TypeRecords :=
  [(CNAME, [CNAMEValue "a.com."; CNAMEValue "b.com."])].

Definition mx_unsorted : TypeRecords :=
  [(MX, [MXValue 20 "b.com."; MXValue 10 "a.com."])].

(** A store holding one customer, for [domain], with [dnsRecords]
    serialised in its metadata. *)
Definition store_with (domain : string) (dnsRecords : value) : Stripe.t :=
  {| Stripe.up := true;
     Stripe.customers :=
       [{| Stripe.id := 1;
           Stripe.email := "dns@" ++ domain;
           Stripe.name := "DNS records for " ++ domain;
           Stripe.metadata := new_metadata domain dnsRecords |}] |}.

(** The record set of the specification's wildcard example. *)
Definition wildcard_only : RecordSet := [("*", [(A, [AValue "9.9.9.9"])])].

(** Stored records whose MX list holds a well-formed value followed by
    [null]. *)
Definition mx_then_null : value :=
  VObj [("@", VObj [("MX", VArr [VObj [("priority", VNum (Int 10));
                                        ("exchange", VStr "mail.example.com.")];
                                  VNull])])].

(** Stored records whose A list holds an address and then an object with a
    property [toString]. *)
Definition a_then_object : value :=
  VObj [("@", VObj [("A", VArr [VStr "1.2.3.4"; VObj [("toString", VNull)]])])].

(** Stored records whose CNAME list holds such an object. *)
Definition cname_object : value :=
  VObj [("@", VObj [("CNAME", VArr [VObj [("toString", VNull)]])])].

(** Stored records whose A entry is a string instead of a list. *)
Definition a_not_a_list : value :=
  VObj [("@", VObj [("A", VStr "1.2.3.4")])].

Definition offline : Stripe.t := {| Stripe.up := false; Stripe.customers := [] |}.

Definition empty_account : Stripe.t := {| Stripe.up := true; Stripe.customers := [] |}.

(** A customer whose [dns_records] is not JSON. *)
Definition garbled : Stripe.t :=
  {| Stripe.up := true;
     Stripe.customers :=
       [{| Stripe.id := 1;
           Stripe.email := "dns@example.com";
           Stripe.name := "DNS records for example.com";
           Stripe.metadata := [("dns_records", "{oops")] |}] |}.

(** The record set of the specification's write example, after its first
    update. *)
Definition apex_with_A : RecordSet :=
  [("@", [(A, [AValue "1.2.3.4"; AValue "5.6.7.8"])])].

(** ** JSON values *)

(** The values [JSON.stringify] writes without loss: no [undefined], no
    built-in, whole numbers, and objects whose keys are distinct. *)
Fixpoint json_value (v : value) : bool :=
  match v with
  | VUndefined => false
  | VNull | VBool _ | VStr _ => true
  | VNum NaN => false
  | VNum (Dec _ e) => (e =? 0)%Z
  | VArr elems => forallb json_value elems
  | VObj props =>
      distinct String.eqb (List.map fst props)
      && forallb (fun kv => let '(_, x) := kv in json_value x) props
  | VBuiltin _ => false
  end.

(** An upper bound on the depth of calls the parser needs for a value. *)
Fixpoint size (v : value) : nat :=
  match v with
  | VArr elems => S (list_sum (List.map (fun x => S (size x)) elems))
  | VObj props => S (list_sum (List.map (fun kv => let '(_, x) := kv in S (size x)) props))
  | _ => 1
  end.

(** What may follow a value in a JSON text: the end, or one of [,], []]
    and [}]. *)
Inductive terminated : list ascii -> Prop :=
| end_of_text : terminated []
| before_comma r : terminated (","%char :: r)
| before_bracket r : terminated ("]"%char :: r)
| before_brace r : terminated ("}"%char :: r).

(** The property the induction carries for one value. *)
Definition reads_back (v : value) : Prop :=
  json_value v = true ->
  forall fuel rest, size v <= fuel -> terminated rest ->
  JSON.parse_value fuel (JSON.ser v ++ rest) = Some (v, rest).

(** [JSON.parse(JSON.stringify(v))] *)
Definition round_trip (v : value) : result value :=
  match JSON.stringify v with
  | Some text => JSON.parse text
  | None => Throw SyntaxError
  end.

(** The codec of the record store: a record set is written as the JSON
    text of its stored shape and read back by [JSON.parse]. *)
Definition encode (rs : RecordSet) : option string := JSON.stringify (js_of_set rs).
Definition decode (blob : string) : result value := JSON.parse blob.

(** ** A session with the update tool *)

Definition update (domain subdomain recordType rawValue : string) (st : Stripe.t)
  : Stripe.t :=
  snd (updateDNSRecord domain subdomain recordType rawValue st).

(** The two updates of the specification's write example, then two more
    labels. *)
Definition session : Stripe.t :=
  update "example.com" "*" "A" "9.9.9.9"
    (update "example.com" "www" "CNAME" "a.com."
       (update "example.com" "@" "MX" "10 mail.x.com."
          (update "example.com" "@" "A" "1.2.3.4,5.6.7.8" empty_account))).

Definition session_records : RecordSet :=
  [("@", [(A, [AValue "1.2.3.4"; AValue "5.6.7.8"]); (MX, [MXValue 10 "mail.x.com."])]);
   ("www", [(CNAME, [CNAMEValue "a.com."])]);
   ("*", [(A, [AValue "9.9.9.9"])])].

Definition ask (st : Stripe.t) (name : string) (type : Z) : result (list answer) :=
  _handleRequest st [{| qname := name; qtype := type |}].

(** ** Vocabulary of the further properties *)

(** The entry whose records a label is answered from: its own, else,
    unless the label is ["@"] or the name of an inherited property, the one
    of ["*"]. (An inherited name resolves to a built-in, which holds no
    records.) *)
Definition resolved (label : string) (rs : RecordSet) : option TypeRecords :=
  match records_of label rs with
  | Some tr => Some tr
  | None =>
      if (label =? "@")%string || is_inherited label then None else records_of "*" rs
  end.

(** An answer carries the queried name, the class IN and the TTL 300. *)
Definition stamped (queryName : string) (a : answer) : Prop :=
  name a = queryName /\ class a = Packet.CLASS.IN /\ ttl a = 300%Z.

(** A computation on the answers that keeps every answer stamped, whether
    it returns or raises. *)
Definition keeps_stamped {T} (queryName : string) (m : ST (list answer) T) : Prop :=
  forall answers r answers',
    m answers = (r, answers') ->
    Forall (stamped queryName) answers -> Forall (stamped queryName) answers'.

(** A store that serves [rs] for [example.com]. *)
Definition serving (rs : RecordSet) : Stripe.t := store_with "example.com" (js_of_set rs).

(** Does the string start, or end, with white space? *)
Definition starts_white (s : string) : bool :=
  match s with
  | EmptyString => false
  | String c _ => JsString.is_white c
  end.

Fixpoint ends_white (s : string) : bool :=
  match s with
  | EmptyString => false
  | String c EmptyString => JsString.is_white c
  | String _ r => ends_white r
  end.

(** A stored A or CNAME value as the writer leaves it: no comma, and no
    white space at either end. *)
Definition tidy (s : string) : bool :=
  negb (JsString.contains "," s) && negb (starts_white s) && negb (ends_white s).

(** The customer [updateDNSRecord] creates for a domain that has none, and
    the store right after its creation. *)
Definition new_customer (st : Stripe.t) (domain : string) : Stripe.customer :=
  {| Stripe.id := Stripe.fresh_id st;
     Stripe.email := "dns@" ++ domain;
     Stripe.name := "DNS records for " ++ domain;
     Stripe.metadata := [] |}.

Definition with_new_customer (st : Stripe.t) (domain : string) : Stripe.t :=
  {| Stripe.up := true; Stripe.customers := new_customer st domain :: Stripe.customers st |}.

(** The customers of a domain, newest first. *)
Definition customers_of (domain : string) (st : Stripe.t) : list Stripe.customer :=
  filter (fun c => (Stripe.email c =? "dns@" ++ domain)%string) (Stripe.customers st).

(** Stripe accepts the metadata written for [dnsRecords]: neither the
    domain nor the serialised records exceed the limit of a value. *)
Definition accepted (domain : string) (dnsRecords : value) : bool :=
  forallb (fun kv => String.length (snd kv) <=? Stripe.value_limit)
          (new_metadata domain dnsRecords).

(** Customer ids are unique. *)
Definition unique_ids (st : Stripe.t) : Prop :=
  NoDup (List.map Stripe.id (Stripe.customers st)).

(** Some MX segment has no space once trimmed. *)
Definition segment_without_space (rawValue : string) : bool :=
  existsb (fun seg => negb (JsString.contains " " (JsString.trim seg)))
          (JsString.split "," rawValue).

(** A store with one customer for [example.com] holding no records yet. *)
Definition bare_customer : Stripe.t := with_new_customer empty_account "example.com".

(** The record set an update computes from the existing one. *)
Definition updated (subdomain recordType rawValue : string) (existing : value)
  : result value :=
  (v <- formatValue recordType rawValue ;;
   merge existing (formatSubdomain subdomain) recordType v)%js.

(** The record set with an entry for [label]: an empty one when it had
    none. *)
Definition with_label (label : string) (rs : RecordSet) : RecordSet :=
  match records_of label rs with
  | Some _ => rs
  | None => rs ++ [(label, [])]
  end.

(** Two accounts, for two domains. *)
Definition two_domains : Stripe.t :=
  update "example.org" "@" "A" "7.7.7.7"
    (update "example.com" "@" "A" "1.2.3.4" empty_account).

(* ================================================================== *)
(** * Properties of the domain parser *)
(* ================================================================== *)

Section DomainParser.

Lemma split_without_separator (sep : ascii) (s : string) :
  JsString.contains sep s = false -> JsString.split sep s = [s].
Proof.
  induction s as [|c r IH]; simpl; intros H; [reflexivity|].
  apply orb_false_iff in H. destruct H as [Hc Hr].
  rewrite Hc, (IH Hr). reflexivity.
Qed.

Example parse_www :
  parseDomainParts "www.example.com"
  = {| topDomain := "example.com"; subdomain := "www" |}.
Proof. reflexivity. Qed.

Example parse_apex :
  parseDomainParts "example.com"
  = {| topDomain := "example.com"; subdomain := "@" |}.
Proof. reflexivity. Qed.

Example parse_deep :
  parseDomainParts "a.b.example.com"
  = {| topDomain := "example.com"; subdomain := "a.b" |}.
Proof. reflexivity. Qed.

(** C10. A query name without a dot is its own apex, and its label is
    ["@"]: a single-label query is looked up as an apex-level query keyed
    by the whole name. *)
Theorem parse_single_label (name : string) :
  JsString.contains "." name = false ->
  parseDomainParts name = {| topDomain := name; subdomain := "@" |}.
Proof.
  intros H. unfold parseDomainParts.
  rewrite (split_without_separator _ _ H). reflexivity.
Qed.

Lemma parse_single_label_witness :
  JsString.contains "." "localhost" = false
  /\ parseDomainParts "localhost" = {| topDomain := "localhost"; subdomain := "@" |}.
Proof.
  split; [reflexivity | apply (parse_single_label "localhost"); reflexivity].
Defined.

End DomainParser.

(* ================================================================== *)
(** * Reading the stored shape through the data model *)
(* ================================================================== *)

Section StoredShape.

Lemma type_name_eqb (t u : RecordType) :
  (type_name u =? type_name t)%string = RecordType_eqb u t.
Proof. destruct t, u; reflexivity. Qed.

Lemma assoc_js_of_records (t : RecordType) (tr : TypeRecords) :
  assoc (type_name t)
        (List.map (fun e => (type_name (fst e), VArr (List.map js_of_value (snd e)))) tr)
  = option_map (fun vs => VArr (List.map js_of_value vs)) (values_of t tr).
Proof.
  induction tr as [|[u vs] rest IH]; simpl; [reflexivity|].
  rewrite type_name_eqb. destruct (RecordType_eqb u t); [reflexivity | exact IH].
Qed.

Lemma assoc_js_of_set (label : string) (rs : RecordSet) :
  assoc label (List.map (fun e => (fst e, js_of_records (snd e))) rs)
  = option_map js_of_records (records_of label rs).
Proof.
  induction rs as [|[l tr] rest IH]; simpl; [reflexivity|].
  destruct (l =? label)%string; [reflexivity | exact IH].
Qed.

Lemma get_type (t : RecordType) (tr : TypeRecords) :
  get_prop (js_of_records tr) (type_name t)
  = Ok (match values_of t tr with
        | Some vs => VArr (List.map js_of_value vs)
        | None => VUndefined
        end).
Proof.
  unfold js_of_records, get_prop. rewrite assoc_js_of_records.
  destruct (values_of t tr); [reflexivity|]. destruct t; reflexivity.
Qed.

(** A label that is not stored reads as what every object inherits under
    that name. *)
Lemma get_label (label : string) (rs : RecordSet) :
  get_prop (js_of_set rs) label
  = Ok (match records_of label rs with
        | Some tr => js_of_records tr
        | None => inherited CObject label
        end).
Proof.
  unfold js_of_set, get_prop. rewrite assoc_js_of_set.
  destruct (records_of label rs); reflexivity.
Qed.

Lemma inherited_ordinary (k : string) :
  is_inherited k = false -> inherited CObject k = VUndefined.
Proof.
  unfold is_inherited, inherited, has_name. cbn [existsb].
  intros H. apply orb_false_iff in H. destruct H as [H1 H].
  apply orb_false_iff in H. destruct H as [H2 H].
  rewrite H1, H2. fold (has_name k (methods CObject)).
  unfold has_name. now rewrite H.
Qed.

Lemma inherited_builtin (k : string) :
  is_inherited k = true -> exists b, inherited CObject k = VBuiltin b.
Proof.
  unfold is_inherited, inherited, has_name. cbn [existsb].
  destruct (k =? "constructor")%string; [eexists; reflexivity|].
  destruct (k =? "__proto__")%string; [eexists; reflexivity|].
  cbn [orb]. intros H. fold (has_name k (methods CObject)).
  unfold has_name. rewrite H. eexists; reflexivity.
Qed.

Lemma valid_values (t : RecordType) (tr : TypeRecords) (vs : list RecordValue) :
  valid_records tr = true -> values_of t tr = Some vs ->
  forallb (value_of_type t) vs = true.
Proof.
  unfold valid_records. intros H. apply andb_true_iff in H. destruct H as [_ H].
  induction tr as [|[u ws] rest IH]; simpl in *; [discriminate|].
  apply andb_true_iff in H. destruct H as [Hu Hrest].
  destruct (RecordType_eqb u t) eqn:E.
  - intros [= <-]. destruct u, t; try discriminate; exact Hu.
  - apply IH, Hrest.
Qed.

End StoredShape.

(* ================================================================== *)
(** * Resolution: exact label, then wildcard *)
(* ================================================================== *)

Section Resolution.

Lemma star_ordinary : inherited CObject "*" = VUndefined.
Proof. reflexivity. Qed.

(** Resolution of a label in a record set, for every label: the records
    stored under the label itself when there are some; otherwise, when the
    label names an inherited property, the built-in found under that name;
    otherwise, unless the label is ["@"], the records stored under ["*"];
    otherwise nothing ([null]). *)
Lemma resolve_label (label : string) (rs : RecordSet) :
  resolve (js_of_set rs) label
  = Ok (match records_of label rs with
        | Some tr => js_of_records tr
        | None =>
            if is_inherited label then inherited CObject label
            else if (label =? "@")%string then VNull
            else match records_of "*" rs with
                 | Some tr => js_of_records tr
                 | None => VNull
                 end
        end).
Proof.
  unfold resolve. rewrite !get_label.
  destruct (records_of label rs) as [tr|]; simpl; [reflexivity|].
  destruct (is_inherited label) eqn:I.
  - destruct (inherited_builtin label I) as [b ->]. reflexivity.
  - rewrite (inherited_ordinary label I). cbn [truthy negb andb].
    destruct (label =? "@")%string; simpl; [reflexivity|].
    rewrite star_ordinary. destruct (records_of "*" rs); reflexivity.
Qed.

(** C4, at a failing label. The record set holds a wildcard entry and no
    entry for the label [constructor]; the label is not ["@"], so the claim
    gives the wildcard's records. The code reads [dnsRecords["constructor"]],
    finds the function every object inherits under that name, takes it for
    the exact match and never looks at ["*"]: the query is answered with
    nothing, while any other unknown label gets the wildcard's answer. *)
Theorem inherited_label_misses_wildcard :
  records_of "constructor" wildcard_only = None
  /\ records_of "*" wildcard_only = Some [(A, [AValue "9.9.9.9"])]
  /\ resolve (js_of_set wildcard_only) "constructor" = Ok (VBuiltin (Constructor CObject))
  /\ ask (serving wildcard_only) "constructor.example.com" Packet.TYPE.A = Ok []
  /\ ask (serving wildcard_only) "foo.example.com" Packet.TYPE.A
     = Ok [answer_of "foo.example.com" A (AValue "9.9.9.9")].
Proof. repeat split; vm_compute; reflexivity. Qed.

(** X23. For every label that is not the name of an inherited property,
    resolution gives the records stored under the label itself when there
    are some; otherwise, unless the label is ["@"], the records stored under
    ["*"]; otherwise nothing ([null]). *)
Theorem resolve_ordinary_label (label : string) (rs : RecordSet) :
  is_inherited label = false ->
  resolve (js_of_set rs) label
  = Ok (match records_of label rs with
        | Some tr => js_of_records tr
        | None =>
            if (label =? "@")%string then VNull
            else match records_of "*" rs with
                 | Some tr => js_of_records tr
                 | None => VNull
                 end
        end).
Proof. intros I. rewrite resolve_label, I. reflexivity. Qed.

Lemma resolve_ordinary_label_witness :
  resolve (js_of_set wildcard_only) "foo" = Ok (js_of_records [(A, [AValue "9.9.9.9"])]).
Proof. exact (resolve_ordinary_label "foo" wildcard_only eq_refl). Defined.

Example resolve_wildcard :
  resolve (js_of_set [("@", [(A, [AValue "1.1.1.1"])]); ("*", [(A, [AValue "9.9.9.9"])])])
          "foo"
  = Ok (js_of_records [(A, [AValue "9.9.9.9"])]).
Proof. reflexivity. Qed.

Example resolve_apex_skips_wildcard :
  resolve (js_of_set [("*", [(A, [AValue "9.9.9.9"])])]) "@" = Ok VNull.
Proof. reflexivity. Qed.

End Resolution.

(* ================================================================== *)
(** * Answer synthesis *)
(* ================================================================== *)

Section Synthesis.

Variable queryName : string.

(** Logging a string and pushing the answer: the A callback on a stored
    address. *)
Lemma add_A_string (address : string) (answers : list answer) :
  add_A queryName (VStr address) answers
  = (Ok tt, answers ++ [answer_of queryName A (AValue address)]).
Proof. reflexivity. Qed.

Lemma forEach_A (vs : list RecordValue) (answers : list answer) :
  forallb (value_of_type A) vs = true ->
  forEach_list (add_A queryName) (List.map js_of_value vs) answers
  = (Ok tt, answers ++ List.map (answer_of queryName A) vs).
Proof.
  revert answers. induction vs as [|v rest IH]; intros answers H; simpl.
  - unfold ret. now rewrite app_nil_r.
  - simpl in H. apply andb_true_iff in H. destruct H as [Hv Hrest].
    destruct v; try discriminate.
    unfold bindST at 1. cbn [js_of_value]. rewrite add_A_string.
    rewrite (IH _ Hrest), <- app_assoc. reflexivity.
Qed.

(** The MX callback on a stored value: both substitutions of the logged
    text are a string and a number. *)
Lemma add_MX_value (priority : Z) (exchange : string) (answers : list answer) :
  add_MX queryName (js_of_value (MXValue priority exchange)) answers
  = (Ok tt, answers ++ [answer_of queryName MX (MXValue priority exchange)]).
Proof. reflexivity. Qed.

Lemma forEach_MX (vs : list RecordValue) (answers : list answer) :
  forallb (value_of_type MX) vs = true ->
  forEach_list (add_MX queryName) (List.map js_of_value vs) answers
  = (Ok tt, answers ++ List.map (answer_of queryName MX) vs).
Proof.
  revert answers. induction vs as [|v rest IH]; intros answers H; simpl.
  - unfold ret. now rewrite app_nil_r.
  - simpl in H. apply andb_true_iff in H. destruct H as [Hv Hrest].
    destruct v; try discriminate.
    unfold bindST at 1. rewrite add_MX_value.
    rewrite (IH _ Hrest), <- app_assoc. reflexivity.
Qed.

Lemma get_A (tr : TypeRecords) :
  get_prop (js_of_records tr) "A"
  = Ok (match values_of A tr with
        | Some vs => VArr (List.map js_of_value vs)
        | None => VUndefined
        end).
Proof. exact (get_type A tr). Qed.

Lemma get_CNAME (tr : TypeRecords) :
  get_prop (js_of_records tr) "CNAME"
  = Ok (match values_of CNAME tr with
        | Some vs => VArr (List.map js_of_value vs)
        | None => VUndefined
        end).
Proof. exact (get_type CNAME tr). Qed.

Lemma get_MX (tr : TypeRecords) :
  get_prop (js_of_records tr) "MX"
  = Ok (match values_of MX tr with
        | Some vs => VArr (List.map js_of_value vs)
        | None => VUndefined
        end).
Proof. exact (get_type MX tr). Qed.

Lemma valid_first (t : RecordType) (tr : TypeRecords) (c : RecordValue)
      (rest : list RecordValue) :
  valid_records tr = true -> values_of t tr = Some (c :: rest) ->
  value_of_type t c = true.
Proof.
  intros Hv E. pose proof (valid_values t tr (c :: rest) Hv E) as H. simpl in H.
  apply andb_true_iff in H. tauto.
Qed.

(** The CNAME branch, shared by the A and the CNAME case. *)
Lemma cname_branch (tr : TypeRecords) :
  valid_records tr = true ->
  exists b,
    (cname <- lift (get_prop (js_of_records tr) "CNAME") ;;
     if truthy cname then
       add_CNAME queryName cname ;;
       ret true
     else ret false)%st []
    = (Ok b, expected queryName tr Packet.TYPE.CNAME).
Proof.
  intros Hv. unfold bindST at 1, lift at 1. rewrite get_CNAME.
  unfold expected. cbn [Z.eqb Packet.TYPE.CNAME Packet.TYPE.A Pos.eqb].
  destruct (values_of CNAME tr) as [[|c rest]|] eqn:EC;
    try (eexists; reflexivity).
  pose proof (valid_first CNAME tr c rest Hv EC) as Hc.
  destruct c; try discriminate. eexists. reflexivity.
Qed.

(** On a valid entry the synthesis raises nothing, whatever the query
    type, and pushes the expected answers. *)
Lemma synthesis (tr : TypeRecords) (ty : Z) :
  valid_records tr = true ->
  exists b,
    addRecordsToResponse queryName (js_of_records tr) ty [] = (Ok b, expected queryName tr ty).
Proof.
  intros Hv. unfold addRecordsToResponse, expected.
  destruct (ty =? Packet.TYPE.A)%Z.
  - unfold bindST at 1, lift at 1. rewrite get_A.
    destruct (values_of A tr) as [vs|] eqn:EA.
    + cbn [truthy forEach]. unfold bindST.
      rewrite forEach_A by (eapply valid_values; eauto).
      eexists. reflexivity.
    + cbn [truthy]. apply cname_branch, Hv.
  - destruct (ty =? Packet.TYPE.CNAME)%Z; [apply cname_branch, Hv|].
    destruct (ty =? Packet.TYPE.MX)%Z; [|eexists; reflexivity].
    unfold bindST at 1, lift at 1. rewrite get_MX.
    destruct (values_of MX tr) as [vs|] eqn:EM; [|eexists; reflexivity].
    cbn [or_else truthy forEach]. unfold bindST at 1.
    rewrite forEach_MX by (eapply valid_values; eauto).
    eexists. reflexivity.
Qed.

Lemma answers_expected (tr : TypeRecords) (ty : Z) :
  valid_records tr = true ->
  answers_for queryName (js_of_records tr) ty = expected queryName tr ty.
Proof.
  intros Hv. unfold answers_for. destruct (synthesis tr ty Hv) as [b ->]. reflexivity.
Qed.

Lemma answers_A (tr : TypeRecords) :
  valid_records tr = true ->
  answers_for queryName (js_of_records tr) Packet.TYPE.A
  = match values_of A tr, values_of CNAME tr with
    | Some vs, _ => List.map (answer_of queryName A) vs
    | None, Some (c :: _) => [answer_of queryName CNAME c]
    | None, Some [] =>
        [{| name := queryName; type := Packet.TYPE.CNAME; class := Packet.CLASS.IN;
            ttl := 300; rdata := Domain VUndefined |}]
    | None, None => []
    end.
Proof. intros Hv. now rewrite (answers_expected tr _ Hv). Qed.

Lemma answers_CNAME (tr : TypeRecords) :
  valid_records tr = true ->
  answers_for queryName (js_of_records tr) Packet.TYPE.CNAME
  = match values_of CNAME tr with
    | Some (c :: _) => [answer_of queryName CNAME c]
    | Some [] =>
        [{| name := queryName; type := Packet.TYPE.CNAME; class := Packet.CLASS.IN;
            ttl := 300; rdata := Domain VUndefined |}]
    | None => []
    end.
Proof. intros Hv. now rewrite (answers_expected tr _ Hv). Qed.

Lemma answers_MX (tr : TypeRecords) :
  valid_records tr = true ->
  answers_for queryName (js_of_records tr) Packet.TYPE.MX
  = match values_of MX tr with
    | Some vs => List.map (answer_of queryName MX) vs
    | None => []
    end.
Proof. intros Hv. now rewrite (answers_expected tr _ Hv). Qed.

End Synthesis.

Section AnswerClaims.




(** C7. For every MX query resolved to a record entry that stores MX
    values, the answers are the stored values, one answer per value, in the
    stored order: nothing is sorted by priority. *)
Theorem MX_answers_in_stored_order (name : string) (tr : TypeRecords)
        (vs : list RecordValue) :
  valid_records tr = true ->
  values_of MX tr = Some vs ->
  answers_for name (js_of_records tr) Packet.TYPE.MX = List.map (answer_of name MX) vs.
Proof.
  intros Hv E. rewrite (answers_MX name tr Hv), E. reflexivity.
Qed.

Lemma MX_answers_in_stored_order_witness :
  valid_records mx_unsorted = true
  /\ values_of MX mx_unsorted = Some [MXValue 20 "b.com."; MXValue 10 "a.com."]
  /\ answers_for "example.com" (js_of_records mx_unsorted) Packet.TYPE.MX
     = [answer_of "example.com" MX (MXValue 20 "b.com.");
        answer_of "example.com" MX (MXValue 10 "a.com.")].
Proof.
  split; [reflexivity|]. split; [reflexivity|].
  exact (MX_answers_in_stored_order "example.com" mx_unsorted
           [MXValue 20 "b.com."; MXValue 10 "a.com."] eq_refl eq_refl).
Defined.

Lemma answers_other_type (name : string) (recordSet : value) (ty : Z) :
  ty <> Packet.TYPE.A -> ty <> Packet.TYPE.CNAME -> ty <> Packet.TYPE.MX ->
  answers_for name recordSet ty = [].
Proof.
  intros HA HC HM. unfold answers_for, addRecordsToResponse.
  apply Z.eqb_neq in HA, HC, HM. rewrite HA, HC, HM. reflexivity.
Qed.

(** C9. When an entry stores more than one CNAME value, a CNAME query, and
    an A query that falls back to CNAME, are answered with the first stored
    value only; and whatever the query type, no CNAME answer other than the
    one for the first value is ever emitted. *)
Theorem only_first_cname_served (name : string) (tr : TypeRecords)
        (c1 c2 : RecordValue) (rest : list RecordValue) :
  valid_records tr = true ->
  values_of CNAME tr = Some (c1 :: c2 :: rest) ->
  answers_for name (js_of_records tr) Packet.TYPE.CNAME = [answer_of name CNAME c1]
  /\ (values_of A tr = None ->
      answers_for name (js_of_records tr) Packet.TYPE.A = [answer_of name CNAME c1])
  /\ (forall ty a, In a (answers_for name (js_of_records tr) ty) ->
        type a = Packet.TYPE.CNAME -> a = answer_of name CNAME c1).
Proof.
  intros Hv E.
  assert (HC : answers_for name (js_of_records tr) Packet.TYPE.CNAME
               = [answer_of name CNAME c1])
    by (rewrite (answers_CNAME name tr Hv), E; reflexivity).
  assert (HA : values_of A tr = None ->
               answers_for name (js_of_records tr) Packet.TYPE.A
               = [answer_of name CNAME c1])
    by (intros EA; rewrite (answers_A name tr Hv), EA, E; reflexivity).
  repeat split; try assumption.
  intros ty a Hin Hty.
  destruct (Z.eq_dec ty Packet.TYPE.A) as [->|NA].
  - destruct (values_of A tr) as [vs|] eqn:EA.
    + rewrite (answers_A name tr Hv), EA in Hin.
      apply in_map_iff in Hin. destruct Hin as [v [<- _]]. discriminate.
    + rewrite (HA eq_refl) in Hin. destruct Hin as [<-|[]]. reflexivity.
  - destruct (Z.eq_dec ty Packet.TYPE.CNAME) as [->|NC].
    + rewrite HC in Hin. destruct Hin as [<-|[]]. reflexivity.
    + destruct (Z.eq_dec ty Packet.TYPE.MX) as [->|NM].
      * rewrite (answers_MX name tr Hv) in Hin.
        destruct (values_of MX tr) as [vs|]; [|destruct Hin].
        apply in_map_iff in Hin. destruct Hin as [v [<- _]]. discriminate.
      * rewrite (answers_other_type name _ ty NA NC NM) in Hin. destruct Hin.
Qed.

Lemma only_first_cname_served_witness :
  valid_records two_cnames = true
  /\ values_of CNAME two_cnames = Some [CNAMEValue "a.com."; CNAMEValue "b.com."]
  /\ answers_for "www.example.com" (js_of_records two_cnames) Packet.TYPE.CNAME
     = [answer_of "www.example.com" CNAME (CNAMEValue "a.com.")].
Proof.
  split; [reflexivity|]. split; [reflexivity|].
  exact (proj1 (only_first_cname_served "www.example.com" two_cnames
                  (CNAMEValue "a.com.") (CNAMEValue "b.com.") [] eq_refl eq_refl)).
Defined.

End AnswerClaims.

(* ================================================================== *)
(** * The request handler: soft failures and the fallback answer *)
(* ================================================================== *)

Section Handler.

Lemma lookup_soft_failure (stripe : Stripe.t) (domain sub : string) :
  soft_failure stripe domain ->
  fst (lookupDnsRecords domain sub stripe) = Ok VNull.
Proof.
  intros H. unfold lookupDnsRecords, try_catchST, bindST.
  destruct H as [H | e H | c cs e H Hp];
    destruct (Stripe.customers_list 1 ("dns@" ++ domain) stripe) as [r st];
    simpl in H; subst r; try reflexivity.
  unfold lift, try_catch, bind. rewrite Hp. reflexivity.
Qed.

(** [lookupDnsRecords] never lets an exception out. *)
Lemma lookup_never_throws (stripe : Stripe.t) (domain sub : string) :
  exists v, fst (lookupDnsRecords domain sub stripe) = Ok v.
Proof.
  unfold lookupDnsRecords, try_catchST, bindST.
  destruct (Stripe.customers_list 1 ("dns@" ++ domain) stripe) as [[[|c cs]|e] st];
    simpl; try (eexists; reflexivity).
  unfold lift, try_catch.
  destruct (bind _ _); eexists; reflexivity.
Qed.

(** C3. A query whose apex has no customer in the store, or whose store
    lookup is rejected, or whose stored text does not parse, is answered
    with an empty answer section: the fallback answer is not used. *)
Theorem soft_failure_gives_empty_answer (stripe : Stripe.t) (q : question)
        (qs : list question) :
  soft_failure stripe (topDomain (parseDomainParts (qname q))) ->
  _handleRequest stripe (q :: qs) = Ok [].
Proof.
  intros H. unfold _handleRequest, try_catchST, pipeline, bindST, lift.
  rewrite (lookup_soft_failure _ _ _ H). reflexivity.
Qed.

Lemma soft_failure_gives_empty_answer_witness :
  soft_failure garbled (topDomain (parseDomainParts "www.example.com"))
  /\ _handleRequest garbled [{| qname := "www.example.com"; qtype := Packet.TYPE.A |}]
     = Ok [].
Proof.
  assert (H : soft_failure garbled (topDomain (parseDomainParts "www.example.com"))).
  { eapply decode_error; reflexivity. }
  split; [exact H|].
  exact (soft_failure_gives_empty_answer garbled
           {| qname := "www.example.com"; qtype := Packet.TYPE.A |} [] H).
Defined.

Example unknown_apex_empty :
  _handleRequest empty_account [{| qname := "example.org"; qtype := Packet.TYPE.A |}]
  = Ok [].
Proof. reflexivity. Qed.

Example store_down_empty :
  _handleRequest offline [{| qname := "example.com"; qtype := Packet.TYPE.MX |}] = Ok [].
Proof. reflexivity. Qed.

(** With a customer whose text parses, the lookup is the resolution of
    the label in the parsed records; an exception of the resolution gives
    [null]. *)
Lemma lookup_resolves (stripe : Stripe.t) (domain label : string)
      (c : Stripe.customer) (cs : list Stripe.customer) (dnsRecords : value) :
  fst (Stripe.customers_list 1 ("dns@" ++ domain) stripe) = Ok (c :: cs) ->
  JSON.parse (dns_records_text c) = Ok dnsRecords ->
  fst (lookupDnsRecords domain label stripe)
  = Ok (match resolve dnsRecords label with Ok v => v | Throw _ => VNull end).
Proof.
  intros H Hp. unfold lookupDnsRecords, try_catchST, bindST.
  destruct (Stripe.customers_list 1 ("dns@" ++ domain) stripe) as [r st].
  simpl in H. subst r. unfold lift, try_catch, bind. rewrite Hp.
  destruct (resolve dnsRecords label); reflexivity.
Qed.

(** A query resolved to a valid entry is answered by the synthesis alone:
    stored data of the right shape never brings the fallback answer. *)
Lemma handle_valid_entry (stripe : Stripe.t) (q : question) (qs : list question)
      (tr : TypeRecords) :
  fst (lookupDnsRecords (topDomain (parseDomainParts (qname q)))
                        (subdomain (parseDomainParts (qname q))) stripe)
  = Ok (js_of_records tr) ->
  valid_records tr = true ->
  _handleRequest stripe (q :: qs)
  = Ok (answers_for (qname q) (js_of_records tr) (qtype q)).
Proof.
  intros H Hv. unfold _handleRequest, try_catchST, pipeline, bindST at 1, lift at 1.
  rewrite H. cbn [js_of_records truthy]. fold (js_of_records tr).
  unfold bindST, answers_for.
  destruct (synthesis (qname q) tr (qtype q) Hv) as [b ->]. reflexivity.
Qed.

(** When the [try] block raises, the handler appends the fallback answer
    to whatever the block had already pushed. *)
Lemma failure_appends_fallback (stripe : Stripe.t) (q : question) (qs : list question)
      (e : error) (pushed : list answer) :
  pipeline stripe (qname q) (qtype q) [] = (Throw e, pushed) ->
  _handleRequest stripe (q :: qs) = Ok (pushed ++ [fallback (qname q)]).
Proof.
  intros H. unfold _handleRequest, try_catchST. rewrite H. reflexivity.
Qed.

(** The CNAME answer is pushed last: when its code raises, nothing has
    been pushed. *)
Lemma add_CNAME_state (name : string) (cname : value) (answers : list answer)
      (e : error) (pushed : list answer) :
  add_CNAME name cname answers = (Throw e, pushed) -> pushed = answers.
Proof.
  unfold add_CNAME, bindST, lift, console_log, ret, addRecord.
  destruct (get_prop cname "0") as [first|e1]; [|intros [= _ <-]; reflexivity].
  destruct (ToString first) as [text|e1]; [discriminate|intros [= _ <-]; reflexivity].
Qed.

(** In the CNAME case, an exception can only come before the answer is
    pushed. *)
Lemma failure_before_first_answer (name : string) (recordSet : value)
      (e : error) (pushed : list answer) :
  addRecordsToResponse name recordSet Packet.TYPE.CNAME [] = (Throw e, pushed) ->
  pushed = [].
Proof.
  unfold addRecordsToResponse. cbn [Z.eqb Packet.TYPE.CNAME Packet.TYPE.A Pos.eqb].
  unfold bindST at 1, lift at 1.
  destruct (get_prop recordSet "CNAME") as [c|e']; [|intros [= _ <-]; reflexivity].
  destruct (truthy c); [|discriminate].
  unfold bindST at 1.
  destruct (add_CNAME name c []) as [[u|e'] st] eqn:E; [discriminate|].
  intros [= _ <-]. eapply add_CNAME_state, E.
Qed.

(** X7. When the [try] block raises while answering a CNAME query, nothing
    has been pushed yet, and the response is exactly the fallback answer.
    (The A and the MX case push one answer per stored value and can raise
    between two of them: see [failure_after_A_answers] and
    [fallback_after_pushed_answers].) *)
Lemma failure_gives_only_fallback (stripe : Stripe.t) (q : question) (qs : list question)
      (e : error) (pushed : list answer) :
  qtype q = Packet.TYPE.CNAME ->
  pipeline stripe (qname q) (qtype q) [] = (Throw e, pushed) ->
  _handleRequest stripe (q :: qs) = Ok [fallback (qname q)].
Proof.
  intros HC H. rewrite (failure_appends_fallback stripe q qs e pushed H).
  replace pushed with (@nil answer); [reflexivity|].
  rewrite HC in H.
  unfold pipeline, bindST at 1, lift at 1 in H.
  destruct (fst (lookupDnsRecords _ _ stripe)) as [rs|e']; [|now inversion H].
  destruct (truthy rs); [|discriminate].
  unfold bindST in H.
  destruct (addRecordsToResponse _ rs _ []) as [[b|e'] st] eqn:E; [discriminate|].
  inversion H; subst. symmetry. eapply failure_before_first_answer; eauto.
Qed.

(** An A query on a stored list whose second element cannot be converted
    to a string: the first address is pushed, the log of the second raises,
    and the fallback answer comes after the answer already there. *)
Example failure_after_A_answers :
  _handleRequest (store_with "example.com" a_then_object)
                 [{| qname := "example.com"; qtype := Packet.TYPE.A |}]
  = Ok [answer_of "example.com" A (AValue "1.2.3.4"); fallback "example.com"].
Proof. vm_compute. reflexivity. Qed.

Example failure_on_A_query :
  _handleRequest (store_with "example.com" a_not_a_list)
                 [{| qname := "example.com"; qtype := Packet.TYPE.A |}]
  = Ok [fallback "example.com"].
Proof. vm_compute. reflexivity. Qed.

(** C2 at a failing store entry. The MX list of the apex holds one
    well-formed value and then [null]: the first value is pushed, the second
    raises, and the fallback answer is appended to the answer already
    there, so the response carries two answers. *)
Lemma fallback_after_pushed_answers :
  _handleRequest (store_with "example.com" mx_then_null)
                 [{| qname := "example.com"; qtype := Packet.TYPE.MX |}]
  = Ok [answer_of "example.com" MX (MXValue 10 "mail.example.com.");
        fallback "example.com"].
Proof. vm_compute. reflexivity. Qed.

End Handler.

(* ================================================================== *)
(** * The writer: normalising the value *)
(* ================================================================== *)

Section Normalisation.

Lemma split_app (sep : ascii) (p r : string) :
  JsString.contains sep p = false ->
  JsString.split sep (p ++ String sep r) = p :: JsString.split sep r.
Proof.
  induction p as [|c p IH]; simpl; intros H.
  - now rewrite Ascii.eqb_refl.
  - apply orb_false_iff in H. destruct H as [Hc Hp].
    rewrite Hc, (IH Hp). reflexivity.
Qed.

(** Splitting undoes joining, for pieces free of the separator. *)
Lemma split_join (sep : ascii) (parts : list string) :
  parts <> [] ->
  Forall (fun p => JsString.contains sep p = false) parts ->
  JsString.split sep (JsString.join (String sep EmptyString) parts) = parts.
Proof.
  intros Hne H. induction H as [|p rest Hp Hrest IH]; [contradiction|].
  destruct rest as [|q rest].
  - simpl. now apply split_without_separator.
  - change (JsString.join (String sep EmptyString) (p :: q :: rest))
      with (p ++ String sep (JsString.join (String sep EmptyString) (q :: rest)))%string.
    rewrite (split_app _ _ _ Hp), IH; [reflexivity | discriminate].
Qed.

Lemma split_nonempty (sep : ascii) (s : string) : JsString.split sep s <> [].
Proof.
  destruct s as [|c r]; simpl; [discriminate|].
  destruct (Ascii.eqb c sep); [discriminate|].
  destruct (JsString.split sep r); discriminate.
Qed.

(** Every string is the join of its pieces, and the pieces are free of
    the separator. *)
Lemma join_split (sep : ascii) (s : string) :
  JsString.join (String sep EmptyString) (JsString.split sep s) = s.
Proof.
  induction s as [|c r IH]; simpl; [reflexivity|].
  destruct (Ascii.eqb_spec c sep) as [->|Hc].
  - pose proof (split_nonempty sep r) as Hne.
    destruct (JsString.split sep r) as [|p ps]; [contradiction|].
    simpl in *. now rewrite IH.
  - pose proof (split_nonempty sep r) as Hne.
    destruct (JsString.split sep r) as [|p ps]; [contradiction|].
    destruct ps as [|q qs]; simpl in *; now rewrite <- IH.
Qed.

Lemma split_pieces (sep : ascii) (s : string) :
  Forall (fun p => JsString.contains sep p = false) (JsString.split sep s).
Proof.
  induction s as [|c r IH]; simpl; [repeat constructor|].
  destruct (Ascii.eqb c sep) eqn:E; [constructor; [reflexivity | exact IH]|].
  destruct (JsString.split sep r) as [|p ps]; [repeat constructor; simpl; now rewrite E|].
  inversion IH; subst. constructor; [simpl; now rewrite E | assumption].
Qed.

Lemma endsWith_spec (s suffix : string) :
  JsString.endsWith s suffix = true <-> exists prefix, s = (prefix ++ suffix)%string.
Proof.
  induction s as [|c s IH]; cbn [JsString.endsWith].
  - rewrite orb_false_r, String.eqb_eq. split.
    + intros <-. now exists EmptyString.
    + intros [[|d p] H]; simpl in H; [now subst | discriminate].
  - rewrite orb_true_iff, IH, String.eqb_eq. split.
    + intros [<- | [p ->]].
      * now exists EmptyString.
      * now exists (String c p).
    + intros [[|d p] H]; simpl in H.
      * left. now subst.
      * right. injection H as -> ->. now exists p.
Qed.

(** One segment in the documented form ["priority exchange"]. *)
Lemma formatMX_one_space (segment priority exchange : string) :
  JsString.trim segment = (priority ++ " " ++ exchange)%string ->
  JsString.contains " " priority = false ->
  JsString.contains " " exchange = false ->
  formatMX segment = Ok (mx_entry priority exchange).
Proof.
  intros Ht Hp Hx. unfold formatMX. rewrite Ht.
  change (priority ++ " " ++ exchange)%string
    with (priority ++ String " " exchange)%string.
  rewrite (split_app _ _ _ Hp), (split_without_separator _ _ Hx). reflexivity.
Qed.

(** X21. In an MX segment, the text after a second space is dropped: the
    entry is made of the first two pieces alone. *)
Lemma formatMX_drops_tail (segment priority exchange tail : string) :
  JsString.trim segment = (priority ++ " " ++ exchange ++ " " ++ tail)%string ->
  JsString.contains " " priority = false ->
  JsString.contains " " exchange = false ->
  formatMX segment = Ok (mx_entry priority exchange).
Proof.
  intros Ht Hp Hx. unfold formatMX. rewrite Ht.
  change (priority ++ " " ++ exchange ++ " " ++ tail)%string
    with (priority ++ String " " (exchange ++ String " " tail))%string.
  rewrite (split_app _ _ _ Hp), (split_app _ _ _ Hx). reflexivity.
Qed.

(** A segment without a space raises: [exchange] is [undefined]. *)
Lemma formatMX_no_space (segment : string) :
  JsString.contains " " (JsString.trim segment) = false ->
  formatMX segment = Throw TypeError.
Proof.
  intros H. unfold formatMX. now rewrite (split_without_separator _ _ H).
Qed.

(** C8, as the specification words it, fails: in ["10 a b"] the text after
    the first white space is ["a b"], and the code keeps ["a"] only. *)
Lemma mx_split_is_not_at_first_white :
  formatValue "MX" "10 a b" = Ok (VArr [mx_entry "10" "a"])
  /\ spec_formatMX "10 a b" = VArr [mx_entry "10" "a b"]
  /\ formatValue "MX" "10 a b" <> Ok (spec_formatMX "10 a b").
Proof. repeat split; discriminate. Qed.

(** C8, amended. The raw MX value is split on [","]; each segment is
    trimmed; a trimmed segment [priority ++ " " ++ exchange] with a single
    space gives the priority parsed by [parseInt(priority, 10)] and the
    exchange, with ["."] appended if and only if the exchange does not end
    in ["."]; the entries keep the order of the segments. *)
Theorem formatValue_MX (segments : list string) (entries : list (string * string)) :
  segments <> [] ->
  Forall (fun s => JsString.contains "," s = false) segments ->
  Forall2 (fun s e => JsString.trim s = (fst e ++ " " ++ snd e)%string
                      /\ JsString.contains " " (fst e) = false
                      /\ JsString.contains " " (snd e) = false)
          segments entries ->
  formatValue "MX" (JsString.join "," segments)
  = Ok (VArr (List.map (fun e => mx_entry (fst e) (snd e)) entries)).
Proof.
  intros Hne Hc H. unfold formatValue. simpl.
  rewrite (split_join _ _ Hne Hc). clear Hne Hc.
  assert (E : mapM formatMX segments
              = Ok (List.map (fun e => mx_entry (fst e) (snd e)) entries)).
  { induction H as [|s e segs es [Ht [Hp Hx]] _ IH]; [reflexivity|].
    simpl. rewrite (formatMX_one_space _ _ _ Ht Hp Hx). simpl.
    rewrite IH. reflexivity. }
  rewrite E. reflexivity.
Qed.

Lemma formatValue_MX_witness :
  formatValue "MX" "10 mail1.example.com., 20 mail2.example.com"
  = Ok (VArr [mx_entry "10" "mail1.example.com."; mx_entry "20" "mail2.example.com"]).
Proof.
  apply (formatValue_MX ["10 mail1.example.com."; " 20 mail2.example.com"]
                        [("10", "mail1.example.com."); ("20", "mail2.example.com")]).
  - discriminate.
  - repeat constructor.
  - repeat constructor.
Defined.

Example mx_entry_appends_dot :
  mx_entry "20" "mail2.example.com"
  = VObj [("priority", VNum (Int 20)); ("exchange", VStr "mail2.example.com.")].
Proof. reflexivity. Qed.

Example mx_entry_keeps_dot :
  mx_entry "10" "mail1.example.com."
  = VObj [("priority", VNum (Int 10)); ("exchange", VStr "mail1.example.com.")].
Proof. reflexivity. Qed.

End Normalisation.

(* ================================================================== *)
(** * The writer: merging into the record set *)
(* ================================================================== *)

Section Merge.

Lemma assoc_set_same (k : string) (v : value) (props : list (string * value)) :
  assoc k (assoc_set k v props) = Some v.
Proof.
  induction props as [|[k' v'] rest IH]; simpl.
  - now rewrite String.eqb_refl.
  - destruct (k' =? k)%string eqn:E; simpl.
    + now rewrite String.eqb_refl.
    + now rewrite E.
Qed.

Lemma assoc_set_other (k k' : string) (v : value) (props : list (string * value)) :
  k' <> k -> assoc k' (assoc_set k v props) = assoc k' props.
Proof.
  intros Hne. induction props as [|[k0 v0] rest IH]; simpl.
  - destruct (String.eqb_spec k k'); [congruence | reflexivity].
  - destruct (String.eqb_spec k0 k) as [->|Hk]; simpl.
    + destruct (String.eqb_spec k k'); [congruence|].
      destruct (String.eqb_spec k k'); [congruence | reflexivity].
    + destruct (k0 =? k')%string; [reflexivity | exact IH].
Qed.

Lemma assoc_set_twice (k : string) (v w : value) (props : list (string * value)) :
  assoc_set k w (assoc_set k v props) = assoc_set k w props.
Proof.
  induction props as [|[k0 v0] rest IH]; simpl.
  - now rewrite String.eqb_refl.
  - destruct (k0 =? k)%string eqn:K; simpl.
    + now rewrite String.eqb_refl.
    + now rewrite K, IH.
Qed.

Lemma not_proto (k : string) :
  is_inherited k = false -> (k =? "__proto__")%string = false.
Proof.
  unfold is_inherited, has_name. cbn [existsb]. intros H.
  apply orb_false_iff in H. destruct H as [_ H].
  apply orb_false_iff in H. tauto.
Qed.

(** Assignment to a property of an object, when the setter of [__proto__]
    is not in the way. *)
Lemma set_prop_plain (props : list (string * value)) (k : string) (v : value) :
  (k =? "__proto__")%string = false ->
  set_prop (VObj props) k v = Ok (VObj (assoc_set k v props)).
Proof. intros H. unfold set_prop. now rewrite H. Qed.

Lemma set_prop_own (props : list (string * value)) (k : string) (v e : value) :
  assoc k props = Some e ->
  set_prop (VObj props) k v = Ok (VObj (assoc_set k v props)).
Proof.
  intros H. unfold set_prop, has_own. rewrite H, andb_false_r. reflexivity.
Qed.

Lemma get_prop_set (props : list (string * value)) (k : string) (v : value) :
  get_prop (VObj (assoc_set k v props)) k = Ok v.
Proof. unfold get_prop. now rewrite assoc_set_same. Qed.

Lemma has_own_set (props : list (string * value)) (k : string) (v : value) :
  has_own (VObj (assoc_set k v props)) k = true.
Proof. unfold has_own. now rewrite assoc_set_same. Qed.

Lemma set_prop_object (props : list (string * value)) (k : string) (v : value) :
  exists ps, set_prop (VObj props) k v = Ok (VObj ps).
Proof.
  unfold set_prop. destruct (_ && _); eexists; reflexivity.
Qed.

(** The merge on an object, under a label that is not an inherited name,
    when the entry of the label, if it has a truthy one, is an object: the
    assignment is made to the entry, an empty one when the label had none,
    and the entry takes its place among the labels. *)
Lemma merge_entry (props : list (string * value)) (sub ty : string) (v : value) :
  (forall e, assoc sub props = Some e -> truthy e = true -> exists ps, e = VObj ps) ->
  is_inherited sub = false ->
  merge (VObj props) sub ty v
  = (entry <- set_prop (VObj (entry_props (assoc sub props))) ty v ;;
     Ok (VObj (assoc_set sub entry props)))%js.
Proof.
  intros Hshape Hsub. unfold merge. cbn [get_prop bind].
  destruct (assoc sub props) as [e|] eqn:E.
  - destruct (truthy e) eqn:T; cbn [negb].
    + destruct (Hshape e eq_refl T) as [ps ->].
      cbn [bind get_prop entry_props]. rewrite E.
      destruct (set_prop_object ps ty v) as [ps' ->].
      cbn [bind has_own]. rewrite E.
      apply (set_prop_own props sub _ _ E).
    + rewrite (set_prop_own props sub _ _ E). cbn [bind].
      rewrite get_prop_set. cbn [bind].
      replace (entry_props (Some e)) with (@nil (string * value))
        by (destruct e; try reflexivity; discriminate T).
      destruct (set_prop_object [] ty v) as [ps' ->].
      cbn [bind]. rewrite has_own_set.
      now rewrite (set_prop_plain _ sub _ (not_proto sub Hsub)), assoc_set_twice.
  - rewrite (inherited_ordinary sub Hsub). cbn [truthy negb entry_props].
    rewrite (set_prop_plain props sub _ (not_proto sub Hsub)). cbn [bind].
    rewrite get_prop_set. cbn [bind].
    destruct (set_prop_object [] ty v) as [ps' ->].
    cbn [bind]. rewrite has_own_set.
    now rewrite (set_prop_plain _ sub _ (not_proto sub Hsub)), assoc_set_twice.
Qed.

(** The same, when the property is not [__proto__]: the entry gets the one
    property. *)
Lemma merge_object (props : list (string * value)) (sub ty : string) (v : value) :
  (forall e, assoc sub props = Some e -> truthy e = true -> exists ps, e = VObj ps) ->
  is_inherited sub = false ->
  (ty =? "__proto__")%string = false ->
  merge (VObj props) sub ty v
  = Ok (VObj (assoc_set sub
                (VObj (assoc_set ty v (entry_props (assoc sub props)))) props)).
Proof.
  intros Hshape Hsub Hty.
  now rewrite (merge_entry _ _ _ _ Hshape Hsub), (set_prop_plain _ ty v Hty).
Qed.

(** Under a label that is an inherited name and is not stored, the merge
    leaves the object as it is: the assignment lands on the built-in. *)
Lemma merge_inherited (props : list (string * value)) (sub ty : string) (v : value) :
  is_inherited sub = true -> assoc sub props = None ->
  merge (VObj props) sub ty v = Ok (VObj props).
Proof.
  intros Hsub E. unfold merge. cbn [get_prop bind]. rewrite E.
  destruct (inherited_builtin sub Hsub) as [b ->].
  cbn [truthy negb bind get_prop]. rewrite E.
  destruct (inherited_builtin sub Hsub) as [b' ->].
  cbn [set_prop bind has_own]. rewrite E. reflexivity.
Qed.

Lemma merge_object_frame (props : list (string * value)) (sub ty : string) (v : value) :
  (forall e, assoc sub props = Some e -> truthy e = true -> exists ps, e = VObj ps) ->
  is_inherited sub = false ->
  (ty =? "__proto__")%string = false ->
  exists d,
    merge (VObj props) sub ty v = Ok d
    /\ read2 d sub ty = v
    /\ (forall label t, label <> sub \/ t <> ty ->
          read2 d label t = read2 (VObj props) label t).
Proof.
  intros Hshape Hsub Hty. eexists.
  split; [apply (merge_object _ _ _ _ Hshape Hsub Hty)|]. split.
  - unfold read2. rewrite assoc_set_same. cbn [entry_props opt_value].
    now rewrite assoc_set_same.
  - intros label t Hne. unfold read2.
    destruct (String.eqb_spec label sub) as [->|Hl].
    + destruct Hne as [Hne|Ht]; [congruence|].
      rewrite assoc_set_same. cbn [entry_props]. now rewrite assoc_set_other.
    + now rewrite assoc_set_other.
Qed.

(** The merge into a record set, under a label that is not an inherited
    name: the pair (label, type) then holds the new value and every other
    pair is as before. *)
Lemma merge_set_frame (rs : RecordSet) (sub ty : string) (v : value) :
  is_inherited sub = false ->
  (ty =? "__proto__")%string = false ->
  exists d,
    merge (js_of_set rs) sub ty v = Ok d
    /\ read2 d sub ty = v
    /\ (forall label t, label <> sub \/ t <> ty ->
          read2 d label t = read2 (js_of_set rs) label t).
Proof.
  apply merge_object_frame. intros e He _.
  rewrite assoc_js_of_set in He.
  destruct (records_of sub rs) as [tr|]; [|discriminate].
  injection He as <-. eexists. reflexivity.
Qed.

(** C6, at a failing label. The customer of [example.com] holds the record
    set of the specification's write example, and the update tool is run for
    the label [constructor], type A, value [1.2.3.4]. The claim has the pair
    ([constructor], A) hold the new value afterwards. The code reads
    [dnsRecords["constructor"]], finds the function every object inherits
    under that name, creates no entry, and assigns the value to a property
    of that function: the record set written back is the one that was
    there, the pair is not in it, and a query for the name gets no
    answer. *)
Theorem inherited_label_update_is_lost :
  formatValue "A" "1.2.3.4" = Ok (VArr [VStr "1.2.3.4"])
  /\ merge (js_of_set apex_with_A) "constructor" "A" (VArr [VStr "1.2.3.4"])
     = Ok (js_of_set apex_with_A)
  /\ List.map (fun c => decode (dns_records_text c))
       (Stripe.customers (update "example.com" "constructor" "A" "1.2.3.4"
                                 (serving apex_with_A)))
     = [Ok (js_of_set apex_with_A)]
  /\ read2 (js_of_set apex_with_A) "constructor" "A" = VUndefined
  /\ ask (update "example.com" "constructor" "A" "1.2.3.4" (serving apex_with_A))
         "constructor.example.com" Packet.TYPE.A
     = Ok [].
Proof. repeat split; vm_compute; reflexivity. Qed.

Example write_MX_keeps_A :
  (formatted <- formatValue "MX" "10 mail.x.com." ;;
   merge (js_of_set apex_with_A) (formatSubdomain "@") "MX" formatted)%js
  = Ok (js_of_set [("@", [(A, [AValue "1.2.3.4"; AValue "5.6.7.8"]);
                          (MX, [MXValue 10 "mail.x.com."])])]).
Proof. reflexivity. Qed.

End Merge.

(* ================================================================== *)
(** * The codec: [JSON.parse] after [JSON.stringify] *)
(* ================================================================== *)

Section JsonRoundTrip.
Import JSON.

Lemma value_ind' (P : value -> Prop) :
  P VUndefined -> P VNull -> (forall b, P (VBool b)) -> (forall n, P (VNum n)) ->
  (forall s, P (VStr s)) ->
  (forall elems, Forall P elems -> P (VArr elems)) ->
  (forall props, Forall (fun kv => P (snd kv)) props -> P (VObj props)) ->
  (forall b, P (VBuiltin b)) ->
  forall v, P v.
Proof.
  intros HU HN HB HNum HS HA HO HF.
  fix IH 1. intros [| |b|n|s|elems|props|b].
  - exact HU.
  - exact HN.
  - apply HB.
  - apply HNum.
  - apply HS.
  - apply HA. induction elems as [|x rest IHl]; constructor; [apply IH | exact IHl].
  - apply HO. induction props as [|[k x] rest IHl]; constructor; [apply IH | exact IHl].
  - apply HF.
Qed.

Lemma read_char_quote_char (c : ascii) (r : list ascii) :
  read_char (quote_char c ++ r) = Some (Some c, r).
Proof.
  destruct c as [[] [] [] [] [] [] [] []]; reflexivity.
Qed.

Lemma quote_char_nonempty (c : ascii) : 1 <= List.length (quote_char c).
Proof.
  destruct c as [[] [] [] [] [] [] [] []]; cbv; lia.
Qed.

Lemma length_quote_chars (s : string) :
  String.length s <= List.length (quote_chars s).
Proof.
  induction s as [|c s IH]; simpl; [lia|].
  rewrite length_app. pose proof (quote_char_nonempty c). lia.
Qed.

Lemma read_string_quote (s : string) (rest : list ascii) (fuel : nat) :
  String.length s < fuel ->
  read_string fuel (quote_chars s ++ dquote :: rest) = Some (s, rest).
Proof.
  revert fuel. induction s as [|c s IH]; intros [|fuel] H; simpl in H; try lia.
  - reflexivity.
  - cbn [quote_chars read_string]. rewrite <- app_assoc, read_char_quote_char.
    rewrite IH by lia. reflexivity.
Qed.

Lemma terminated_no_digit (rest : list ascii) : terminated rest -> no_digit rest.
Proof. intros []; reflexivity. Qed.

Lemma read_digits_uint (u : Decimal.uint) (rest : list ascii) :
  no_digit rest -> read_digits (uint_chars u ++ rest) = (u, rest).
Proof.
  intros H. induction u; cbn [uint_chars app read_digits];
    try (rewrite IHu; reflexivity).
  destruct rest as [|c r]; [reflexivity|]. simpl in H. cbn [read_digits].
  now rewrite H.
Qed.

Lemma to_uint_normal (p : positive) :
  Decimal.unorm (Pos.to_uint p) = Pos.to_uint p.
Proof.
  rewrite <- (DecimalPos.Unsigned.to_of (Pos.to_uint p)).
  now rewrite DecimalPos.Unsigned.of_to.
Qed.

Lemma to_uint_no_leading_zero (p : positive) (u : Decimal.uint) :
  Pos.to_uint p <> Decimal.D0 u.
Proof.
  intros E. pose proof (to_uint_normal p) as N. rewrite E in N.
  destruct (Decimal.nzhead (Decimal.D0 u)) eqn:Z;
    try (rewrite DecimalFacts.unorm_nzhead in N by (rewrite Z; discriminate);
         exact (DecimalFacts.nzhead_nonzero _ _ N)).
  unfold Decimal.unorm in N. rewrite Z in N.
  apply (DecimalPos.Unsigned.to_uint_nonzero p). rewrite E. now rewrite <- N.
Qed.

Lemma normalise_int (z : Z) : normalise z 0 = Dec z 0.
Proof.
  unfold normalise. destruct (Z.eqb_spec z 0) as [->|_]; [reflexivity|].
  cbn [Z.leb Z.compare Z.pow]. now rewrite Z.mul_1_r.
Qed.

Lemma read_frac_terminated (rest : list ascii) :
  terminated rest -> read_frac rest = Some (Decimal.Nil, rest).
Proof. intros []; reflexivity. Qed.

Lemma read_exp_terminated (rest : list ascii) :
  terminated rest -> read_exp rest = Some (0%Z, rest).
Proof. intros []; reflexivity. Qed.

Lemma read_minus_digits (p : positive) (rest : list ascii) :
  read_minus (uint_chars (Pos.to_uint p) ++ rest)
  = (false, uint_chars (Pos.to_uint p) ++ rest).
Proof.
  pose proof (DecimalPos.Unsigned.to_uint_nonnil p) as NN.
  destruct (Pos.to_uint p); try reflexivity. contradiction.
Qed.

Lemma int_ok_to_uint (p : positive) : int_ok (Pos.to_uint p) = true.
Proof.
  pose proof (DecimalPos.Unsigned.to_uint_nonnil p) as NN.
  pose proof (to_uint_no_leading_zero p) as NZ.
  destruct (Pos.to_uint p) as [|u| | | | | | | | |]; try reflexivity.
  - contradiction.
  - now destruct (NZ u).
Qed.

(** The number parser reads back the digits of a positive integer. *)
Lemma read_number_digits (p : positive) (rest : list ascii) :
  terminated rest ->
  read_number (uint_chars (Pos.to_uint p) ++ rest) = Some (Dec (Z.pos p) 0, rest).
Proof.
  intros T. unfold read_number.
  rewrite read_minus_digits, (read_digits_uint _ _ (terminated_no_digit _ T)).
  rewrite int_ok_to_uint. cbn [negb].
  rewrite (read_frac_terminated _ T), (read_exp_terminated _ T).
  rewrite DecimalFacts.app_nil_r. unfold Z.of_uint.
  rewrite DecimalPos.Unsigned.of_to. cbn [Decimal.nb_digits Z.of_nat Z.sub Z.opp Z.add].
  now rewrite normalise_int.
Qed.

Lemma read_number_minus_digits (p : positive) (rest : list ascii) :
  terminated rest ->
  read_number ("-"%char :: uint_chars (Pos.to_uint p) ++ rest)
  = Some (Dec (Z.neg p) 0, rest).
Proof.
  intros T. unfold read_number. cbn [read_minus].
  rewrite (read_digits_uint _ _ (terminated_no_digit _ T)).
  rewrite int_ok_to_uint. cbn [negb].
  rewrite (read_frac_terminated _ T), (read_exp_terminated _ T).
  rewrite DecimalFacts.app_nil_r. unfold Z.of_uint.
  rewrite DecimalPos.Unsigned.of_to. cbn [Decimal.nb_digits Z.of_nat Z.sub Z.opp Z.add].
  now rewrite normalise_int.
Qed.

Lemma read_number_zero (rest : list ascii) :
  terminated rest -> read_number ("0"%char :: rest) = Some (Dec 0 0, rest).
Proof.
  intros T. unfold read_number. cbn [read_minus].
  change ("0"%char :: rest) with (uint_chars (Decimal.D0 Decimal.Nil) ++ rest).
  rewrite (read_digits_uint _ _ (terminated_no_digit _ T)). cbn [int_ok negb].
  rewrite (read_frac_terminated _ T), (read_exp_terminated _ T). reflexivity.
Qed.

Lemma parse_value_number (fuel : nat) (c : ascii) (r : list ascii) :
  number_start c = true ->
  parse_value (S fuel) (c :: r)
  = match read_number (c :: r) with
    | Some (n, r') => Some (VNum n, r')
    | None => None
    end.
Proof.
  destruct c as [[] [] [] [] [] [] [] []]; intros H; try discriminate H; reflexivity.
Qed.

Lemma uint_chars_head (u : Decimal.uint) :
  u <> Decimal.Nil ->
  exists c cs, uint_chars u = c :: cs /\ number_start c = true.
Proof.
  destruct u; intros H; try contradiction; cbn [uint_chars]; eauto.
Qed.

(** A printed integer is read back by [parse_value]. *)
Lemma parse_value_int (z : Z) (fuel : nat) (rest : list ascii) :
  terminated rest ->
  parse_value (S fuel) (int_chars (Z.to_int z) ++ rest) = Some (VNum (Dec z 0), rest).
Proof.
  intros T. destruct z as [|p|p]; cbn [Z.to_int int_chars].
  - change (uint_chars Decimal.zero ++ rest) with ("0"%char :: rest).
    rewrite parse_value_number by reflexivity.
    now rewrite (read_number_zero _ T).
  - destruct (uint_chars_head _ (DecimalPos.Unsigned.to_uint_nonnil p))
      as [c [cs [E Hc]]].
    pose proof (read_number_digits p rest T) as R.
    rewrite E in *. cbn [app] in *.
    now rewrite (parse_value_number _ _ _ Hc), R.
  - pose proof (read_number_minus_digits p rest T) as R.
    cbn [app]. rewrite parse_value_number by reflexivity.
    now rewrite R.
Qed.

Lemma parse_value_string (s : string) (fuel : nat) (rest : list ascii) :
  parse_value (S fuel) (quote s ++ rest) = Some (VStr s, rest).
Proof.
  unfold quote. cbn [app parse_value]. rewrite <- app_assoc. cbn [app].
  change (skip_ws (dquote :: quote_chars s ++ dquote :: rest))
    with (dquote :: quote_chars s ++ dquote :: rest).
  cbv iota. change (Ascii.eqb dquote "{") with false.
  change (Ascii.eqb dquote "[") with false.
  change (Ascii.eqb dquote dquote) with true. cbv iota.
  rewrite read_string_quote; [reflexivity|].
  rewrite length_app. pose proof (length_quote_chars s). simpl. lia.
Qed.

Lemma peek_number_start (c : ascii) (r : list ascii) :
  number_start c = true -> peek_is "]" (c :: r) = None.
Proof.
  destruct c as [[] [] [] [] [] [] [] []]; intros H; try discriminate H; reflexivity.
Qed.

(** A printed value does not start like the end of an array. *)
Lemma ser_not_bracket (v : value) (rest : list ascii) :
  json_value v = true -> peek_is "]" (ser v ++ rest) = None.
Proof.
  destruct v as [| |[]|[|z e]|s|elems|props|f]; intros H; try discriminate H;
    try reflexivity.
  cbn [json_value] in H. apply Z.eqb_eq in H. subst e.
  cbn [ser number_chars Z.eqb].
  destruct z as [|p|p]; try reflexivity.
  cbn [Z.to_int int_chars].
  destruct (uint_chars_head _ (DecimalPos.Unsigned.to_uint_nonnil p))
    as [c [cs [E Hc]]].
  rewrite E. cbn [app]. apply peek_number_start, Hc.
Qed.

Lemma parse_elements_ser (elems : list value) :
  elems <> [] ->
  Forall reads_back elems ->
  forallb json_value elems = true ->
  forall fuel rest,
    list_sum (List.map (fun x => S (size x)) elems) <= fuel ->
    parse_elements fuel (join_comma (List.map ser elems) ++ "]"%char :: rest)
    = Some (elems, rest).
Proof.
  intros Hne H. induction H as [|x xs Hx Hxs IH]; [contradiction|].
  intros Hj fuel rest Hf. cbn [forallb] in Hj. apply andb_true_iff in Hj.
  destruct Hj as [Jx Jxs].
  change (list_sum (List.map (fun x => S (size x)) (x :: xs)))
    with (S (size x) + list_sum (List.map (fun x => S (size x)) xs)) in Hf.
  destruct fuel as [|f]; [lia|]. cbn [parse_elements].
  destruct xs as [|y ys].
  - cbn [List.map join_comma].
    rewrite (Hx Jx f ("]"%char :: rest)) by (try constructor; lia).
    reflexivity.
  - change (join_comma (List.map ser (x :: y :: ys)))
      with (ser x ++ ","%char :: join_comma (List.map ser (y :: ys))).
    rewrite <- app_assoc. cbn [app].
    rewrite (Hx Jx f) by (try constructor; lia).
    change (peek_is "," (","%char :: join_comma (List.map ser (y :: ys)) ++ "]"%char :: rest))
      with (Some (join_comma (List.map ser (y :: ys)) ++ "]"%char :: rest)).
    cbv iota. rewrite IH; [reflexivity | discriminate | exact Jxs | lia].
Qed.

Lemma member_shape (k : string) (x : value) (tail : list ascii) :
  member (k, x) ++ tail
  = dquote :: quote_chars k ++ dquote :: ":"%char :: ser x ++ tail.
Proof.
  unfold member, quote. cbn [fst snd app].
  rewrite <- !app_assoc. reflexivity.
Qed.

Lemma flat_map_defined (props : list (string * value)) :
  forallb (fun kv => let '(_, x) := kv in json_value x) props = true ->
  List.flat_map (fun kv => let '(k, x) := kv in
                           match x with
                           | VUndefined | VBuiltin (Constructor _)
                           | VBuiltin (Method _ _) => []
                           | _ => [quote k ++ ":"%char :: ser x]
                           end) props
  = List.map member props.
Proof.
  induction props as [|[k x] rest IH]; cbn [forallb flat_map List.map]; intros H;
    [reflexivity|].
  apply andb_true_iff in H. destruct H as [Hx Hrest]. rewrite (IH Hrest).
  destruct x; try discriminate Hx; reflexivity.
Qed.

Lemma parse_members_ser (props : list (string * value)) :
  props <> [] ->
  Forall (fun kv => reads_back (snd kv)) props ->
  forallb (fun kv => let '(_, x) := kv in json_value x) props = true ->
  forall fuel rest,
    list_sum (List.map (fun kv => let '(_, x) := kv in S (size x)) props) <= fuel ->
    parse_members fuel (join_comma (List.map member props) ++ "}"%char :: rest)
    = Some (props, rest).
Proof.
  intros Hne H. induction H as [|[k x] xs Hx Hxs IH]; [contradiction|].
  intros Hj fuel rest Hf. cbn [forallb] in Hj. apply andb_true_iff in Hj.
  destruct Hj as [Jx Jxs]. cbn [snd] in Hx.
  change (list_sum (List.map (fun kv => let '(_, x) := kv in S (size x)) ((k, x) :: xs)))
    with (S (size x) + list_sum (List.map (fun kv => let '(_, x) := kv in S (size x)) xs))
    in Hf.
  destruct fuel as [|f]; [lia|]. cbn [parse_members].
  assert (Hkey : forall tail,
             match peek_is dquote (member (k, x) ++ tail) with
             | Some r => read_string (List.length r) r
             | None => None
             end = Some (k, ":"%char :: ser x ++ tail)).
  { intros tail. rewrite member_shape.
    change (peek_is dquote (dquote :: quote_chars k ++ dquote :: ":"%char :: ser x ++ tail))
      with (Some (quote_chars k ++ dquote :: ":"%char :: ser x ++ tail)).
    cbv iota. apply read_string_quote.
    rewrite length_app. pose proof (length_quote_chars k). simpl. lia. }
  destruct xs as [|y ys].
  - cbn [List.map join_comma]. specialize (Hkey ("}"%char :: rest)).
    destruct (peek_is dquote (member (k, x) ++ "}"%char :: rest)) as [r|];
      [|discriminate Hkey].
    rewrite Hkey.
    change (peek_is ":" (":"%char :: ser x ++ "}"%char :: rest))
      with (Some (ser x ++ "}"%char :: rest)).
    cbv iota. rewrite (Hx Jx f ("}"%char :: rest)) by (try constructor; lia).
    reflexivity.
  - change (join_comma (List.map member ((k, x) :: y :: ys)))
      with (member (k, x) ++ ","%char :: join_comma (List.map member (y :: ys))).
    rewrite <- app_assoc. cbn [app].
    specialize (Hkey (","%char :: join_comma (List.map member (y :: ys))
                        ++ "}"%char :: rest)).
    destruct (peek_is dquote _) as [r|]; [|discriminate Hkey].
    rewrite Hkey.
    change (peek_is ":" (":"%char :: ?t)) with (Some t).
    cbv iota. rewrite (Hx Jx f) by (try constructor; lia).
    change (peek_is "," (","%char :: ?t)) with (Some t).
    cbv iota. rewrite IH; [reflexivity | discriminate | exact Jxs | lia].
Qed.

Lemma assoc_set_fresh (k : string) (v : value) (props : list (string * value)) :
  forallb (fun a => negb (a =? k)%string) (List.map fst props) = true ->
  assoc_set k v props = props ++ [(k, v)].
Proof.
  induction props as [|[k' v'] rest IH]; cbn [List.map fst forallb assoc_set app];
    intros H; [reflexivity|].
  apply andb_true_iff in H. destruct H as [Hk Hrest].
  apply negb_true_iff in Hk. rewrite Hk, (IH Hrest). reflexivity.
Qed.

Lemma distinct_before (l1 l2 : list string) (k : string) :
  distinct String.eqb (l1 ++ k :: l2) = true ->
  forallb (fun a => negb (a =? k)%string) l1 = true.
Proof.
  induction l1 as [|a l1 IH]; cbn [app distinct forallb]; intros H; [reflexivity|].
  apply andb_true_iff in H. destruct H as [Ha Hrest].
  rewrite (IH Hrest), andb_true_r.
  apply negb_true_iff in Ha. rewrite existsb_app in Ha.
  apply orb_false_iff in Ha. destruct Ha as [_ Ha]. cbn [existsb] in Ha.
  apply orb_false_iff in Ha. destruct Ha as [Ha _]. now rewrite Ha.
Qed.

(** Properties with distinct keys are collected as they stand. *)
Lemma collect_distinct (members acc : list (string * value)) :
  distinct String.eqb (List.map fst (acc ++ members)) = true ->
  fold_left (fun props kv => assoc_set (fst kv) (snd kv) props) members acc
  = acc ++ members.
Proof.
  revert acc. induction members as [|[k v] rest IH]; intros acc H; cbn [fold_left].
  - now rewrite app_nil_r.
  - cbn [fst snd]. rewrite assoc_set_fresh.
    + rewrite IH; rewrite <- app_assoc; [reflexivity | exact H].
    + rewrite map_app in H. cbn [List.map fst] in H.
      exact (distinct_before _ _ _ H).
Qed.

(** Every JSON value is read back from its text, whatever follows it. *)
Lemma parse_value_ser (v : value) : reads_back v.
Proof.
  induction v as [| |b|n|s|elems IH|props IH|f] using value_ind';
    intros J fuel rest Hf T.
  - discriminate J.
  - destruct fuel; [cbn in Hf; lia | reflexivity].
  - destruct fuel; [cbn in Hf; lia | destruct b; reflexivity].
  - destruct n as [|z e]; [discriminate J|].
    cbn [json_value] in J. apply Z.eqb_eq in J. subst e.
    destruct fuel; [cbn in Hf; lia|].
    cbn [ser number_chars Z.eqb]. now apply parse_value_int.
  - destruct fuel; [cbn in Hf; lia|]. apply parse_value_string.
  - cbn [json_value] in J. cbn [size] in Hf.
    destruct fuel as [|f]; [lia|].
    cbn [ser app]. rewrite <- app_assoc. cbn [app parse_value].
    change (skip_ws ("["%char :: ?t)) with ("["%char :: t). cbv iota.
    change (Ascii.eqb "[" "{") with false. change (Ascii.eqb "[" "[") with true.
    cbv iota.
    destruct elems as [|x xs]; [reflexivity|].
    assert (P : peek_is "]" (join_comma (List.map ser (x :: xs)) ++ "]"%char :: rest)
                = None).
    { cbn [List.map join_comma]. cbn [forallb] in J. apply andb_true_iff in J.
      destruct (List.map ser xs); [|rewrite <- app_assoc];
        apply ser_not_bracket; tauto. }
    rewrite P, parse_elements_ser; [reflexivity | discriminate | exact IH | exact J | lia].
  - cbn [json_value] in J. apply andb_true_iff in J. destruct J as [D J].
    cbn [size] in Hf. destruct fuel as [|f]; [lia|].
    cbn [ser]. rewrite (flat_map_defined _ J).
    cbn [app]. rewrite <- app_assoc. cbn [app parse_value].
    change (skip_ws ("{"%char :: ?t)) with ("{"%char :: t). cbv iota.
    change (Ascii.eqb "{" "{") with true. cbv iota.
    destruct props as [|[k x] xs]; [reflexivity|].
    assert (P : peek_is "}" (join_comma (List.map member ((k, x) :: xs))
                               ++ "}"%char :: rest) = None).
    { cbn [List.map join_comma].
      destruct (List.map member xs); [|rewrite <- app_assoc];
        rewrite member_shape; reflexivity. }
    rewrite P, parse_members_ser;
      [| discriminate | exact IH | exact J | lia].
    unfold collect. rewrite (collect_distinct _ [] D). reflexivity.
  - discriminate J.
Qed.

Lemma join_comma_size (elems : list value) :
  Forall (fun x => size x <= List.length (ser x)) elems ->
  list_sum (List.map (fun x => S (size x)) elems)
  <= S (List.length (join_comma (List.map ser elems))).
Proof.
  induction 1 as [|x xs Hx Hxs IH]; [cbn; lia|].
  change (list_sum (List.map (fun x => S (size x)) (x :: xs)))
    with (S (size x) + list_sum (List.map (fun x => S (size x)) xs)).
  destruct xs as [|y ys].
  - cbn. lia.
  - change (join_comma (List.map ser (x :: y :: ys)))
      with (ser x ++ ","%char :: join_comma (List.map ser (y :: ys))).
    rewrite length_app. cbn [List.length]. lia.
Qed.

Lemma join_comma_member_size (props : list (string * value)) :
  Forall (fun kv => size (snd kv) <= List.length (ser (snd kv))) props ->
  list_sum (List.map (fun kv => let '(_, x) := kv in S (size x)) props)
  <= S (List.length (join_comma (List.map member props))).
Proof.
  induction 1 as [|[k x] xs Hx Hxs IH]; [cbn; lia|]. cbn [snd] in Hx.
  change (list_sum (List.map (fun kv => let '(_, x) := kv in S (size x)) ((k, x) :: xs)))
    with (S (size x) + list_sum (List.map (fun kv => let '(_, x) := kv in S (size x)) xs)).
  assert (M : List.length (ser x) <= List.length (member (k, x))).
  { unfold member. rewrite length_app. cbn [snd List.length]. lia. }
  destruct xs as [|y ys].
  - cbn [List.map join_comma list_sum fold_right]. lia.
  - change (join_comma (List.map member ((k, x) :: y :: ys)))
      with (member (k, x) ++ ","%char :: join_comma (List.map member (y :: ys))).
    rewrite length_app. cbn [List.length]. lia.
Qed.

(** The text of a JSON value is at least as long as the parser is deep. *)
Lemma size_le_length (v : value) :
  json_value v = true -> size v <= List.length (ser v).
Proof.
  induction v as [| |b|n|s|elems IH|props IH|f] using value_ind'; intros J.
  - discriminate J.
  - cbn. lia.
  - destruct b; cbn; lia.
  - destruct n as [|z e]; [discriminate J|].
    cbn [json_value] in J. apply Z.eqb_eq in J. subst e.
    cbn [ser number_chars Z.eqb size].
    destruct z as [|p|p]; cbn [Z.to_int int_chars]; [cbn; lia | | cbn; lia].
    destruct (uint_chars_head _ (DecimalPos.Unsigned.to_uint_nonnil p))
      as [c [cs [E _]]].
    rewrite E. cbn. lia.
  - cbn. lia.
  - cbn [json_value] in J. cbn [size ser List.length]. rewrite length_app.
    assert (F : Forall (fun x => size x <= List.length (ser x)) elems).
    { rewrite Forall_forall in *. intros x Hin. apply IH; [exact Hin|].
      rewrite forallb_forall in J. now apply J. }
    pose proof (join_comma_size _ F). cbn [List.length]. lia.
  - cbn [json_value] in J. apply andb_true_iff in J. destruct J as [_ J].
    cbn [size ser List.length]. rewrite (flat_map_defined _ J), length_app.
    assert (F : Forall (fun kv => size (snd kv) <= List.length (ser (snd kv))) props).
    { rewrite Forall_forall in *. intros [k x] Hin. apply (IH _ Hin).
      rewrite forallb_forall in J. exact (J _ Hin). }
    pose proof (join_comma_member_size _ F). cbn [List.length]. lia.
  - discriminate J.
Qed.

(** [JSON.parse(JSON.stringify(v))] is [v], for every JSON value. *)
Theorem parse_stringify (v : value) :
  json_value v = true -> round_trip v = Ok v.
Proof.
  intros J. unfold round_trip, stringify.
  assert (E : parse (string_of_list_ascii (ser v)) = Ok v).
  { unfold parse, chars. rewrite list_ascii_of_string_of_list_ascii.
    pose proof (parse_value_ser v J (S (List.length (ser v))) []) as P.
    rewrite app_nil_r in P. rewrite P; [reflexivity | | constructor].
    pose proof (size_le_length v J). lia. }
  destruct v; try exact E; discriminate J.
Qed.

End JsonRoundTrip.

(* ================================================================== *)
(** * The codec on record sets *)
(* ================================================================== *)

Section Codec.

Lemma distinct_type_names (ts : list RecordType) :
  distinct String.eqb (List.map type_name ts) = distinct RecordType_eqb ts.
Proof.
  induction ts as [|t rest IH]; cbn [List.map distinct]; [reflexivity|].
  rewrite IH. f_equal. f_equal. clear.
  induction rest as [|u rest IH]; cbn [List.map existsb]; [reflexivity|].
  now rewrite IH, type_name_eqb.
Qed.

Lemma json_value_js_of_value (v : RecordValue) : json_value (js_of_value v) = true.
Proof. destruct v; reflexivity. Qed.

Lemma json_value_js_of_records (tr : TypeRecords) :
  valid_records tr = true -> json_value (js_of_records tr) = true.
Proof.
  unfold valid_records, js_of_records. intros H.
  apply andb_true_iff in H. destruct H as [D _].
  cbn [json_value].
  assert (K : List.map fst
                (List.map (fun e => (type_name (fst e),
                                     VArr (List.map js_of_value (snd e)))) tr)
              = List.map type_name (List.map fst tr))
    by (rewrite !map_map; reflexivity).
  rewrite K, distinct_type_names, D. cbn [andb].
  clear. induction tr as [|[t vs] rest IH]; cbn [List.map forallb]; [reflexivity|].
  rewrite IH, andb_true_r. cbn [json_value fst snd].
  induction vs as [|v vs IHv]; cbn [List.map forallb]; [reflexivity|].
  now rewrite json_value_js_of_value.
Qed.

(** The stored shape of a valid record set is a JSON value. *)
Lemma json_value_js_of_set (rs : RecordSet) :
  valid_set rs = true -> json_value (js_of_set rs) = true.
Proof.
  unfold valid_set, js_of_set. intros H.
  apply andb_true_iff in H. destruct H as [D V].
  cbn [json_value].
  assert (K : List.map fst (List.map (fun e => (fst e, js_of_records (snd e))) rs)
              = List.map fst rs)
    by (rewrite map_map; reflexivity).
  rewrite K, D. cbn [andb]. clear K.
  induction rs as [|[l tr] rest IH]; cbn [List.map forallb]; [reflexivity|].
  cbn [forallb snd] in V. apply andb_true_iff in V. destruct V as [Vt Vrest].
  cbn [List.map fst distinct] in D. apply andb_true_iff in D.
  rewrite (IH (proj2 D) Vrest), andb_true_r. cbn [snd].
  now apply json_value_js_of_records.
Qed.

(** C5. Decoding the encoding of a valid record set gives the record set
    back: [encode] produces a text, and [decode] of that text is the stored
    shape of the same record set. *)
Theorem decode_encode (rs : RecordSet) :
  valid_set rs = true ->
  exists blob, encode rs = Some blob /\ decode blob = Ok (js_of_set rs).
Proof.
  intros V. pose proof (parse_stringify _ (json_value_js_of_set rs V)) as R.
  unfold round_trip in R. unfold encode, decode.
  destruct (JSON.stringify (js_of_set rs)) as [blob|]; [|discriminate R].
  exists blob. split; [reflexivity | exact R].
Qed.

Lemma decode_encode_witness :
  valid_set apex_with_A = true
  /\ exists blob, encode apex_with_A = Some blob
                  /\ decode blob = Ok (js_of_set apex_with_A).
Proof.
  split; [reflexivity | apply (decode_encode apex_with_A); reflexivity].
Defined.

Example encode_apex_with_A :
  option_map JSON.chars (encode apex_with_A)
  = Some (JSON.chars "{" ++ JSON.quote "@" ++ JSON.chars ":{" ++ JSON.quote "A"
          ++ JSON.chars ":[" ++ JSON.quote "1.2.3.4" ++ JSON.chars ","
          ++ JSON.quote "5.6.7.8" ++ JSON.chars "]}}").
Proof. reflexivity. Qed.

(** Values outside the data model are not all kept: a priority that is not
    a number is written as [null]. *)
Example NaN_is_not_kept :
  round_trip (VArr [VNum NaN]) = Ok (VArr [VNull]).
Proof. reflexivity. Qed.

End Codec.

(* ================================================================== *)
(** * Writing, then reading back from the store *)
(* ================================================================== *)

Section WriteThenRead.

Lemma keys_assoc_set (a k : string) (x : value) (props : list (string * value)) :
  existsb (String.eqb a) (List.map fst (assoc_set k x props))
  = (a =? k)%string || existsb (String.eqb a) (List.map fst props).
Proof.
  induction props as [|[k0 v0] rest IH]; cbn [assoc_set List.map fst existsb].
  - reflexivity.
  - destruct (String.eqb_spec k0 k) as [->|Hk]; cbn [List.map fst existsb].
    + now destruct (a =? k)%string.
    + rewrite IH. now destruct (a =? k0)%string, (a =? k)%string.
Qed.

Lemma json_value_assoc_set (k : string) (x : value) (props : list (string * value)) :
  json_value (VObj props) = true -> json_value x = true ->
  json_value (VObj (assoc_set k x props)) = true.
Proof.
  cbn [json_value]. intros H Hx. apply andb_true_iff in H. destruct H as [D F].
  induction props as [|[k0 v0] rest IH]; cbn [assoc_set].
  - cbn. now rewrite Hx.
  - cbn [List.map fst distinct forallb] in D, F.
    apply andb_true_iff in D, F. destruct D as [D0 D], F as [F0 F].
    specialize (IH D F). apply andb_true_iff in IH. destruct IH as [ID IF].
    destruct (String.eqb_spec k0 k) as [->|Hk]; cbn [List.map fst distinct forallb].
    + now rewrite D0, D, Hx, F.
    + rewrite keys_assoc_set, ID, IF, F0.
      apply negb_true_iff in D0. rewrite D0.
      destruct (String.eqb_spec k0 k); [contradiction | reflexivity].
Qed.

Lemma json_value_entry_props (sub : string) (props : list (string * value)) :
  json_value (VObj props) = true ->
  json_value (VObj (entry_props (assoc sub props))) = true.
Proof.
  cbn [json_value]. intros H. apply andb_true_iff in H. destruct H as [_ F].
  induction props as [|[k0 v0] rest IH]; cbn [assoc]; [reflexivity|].
  cbn [forallb] in F. apply andb_true_iff in F. destruct F as [F0 F].
  destruct (k0 =? sub)%string; [|exact (IH F)].
  destruct v0; try reflexivity. exact F0.
Qed.

(** Merging a JSON value into a JSON object gives a JSON object. *)
Lemma json_value_merge (props : list (string * value)) (sub ty : string) (v d : value) :
  (forall e, assoc sub props = Some e -> truthy e = true -> exists ps, e = VObj ps) ->
  is_inherited sub = false ->
  (ty =? "__proto__")%string = false ->
  json_value (VObj props) = true -> json_value v = true ->
  merge (VObj props) sub ty v = Ok d ->
  json_value d = true.
Proof.
  intros Hshape Hsub Hty J Jv. rewrite (merge_object _ _ _ _ Hshape Hsub Hty).
  intros [= <-].
  apply json_value_assoc_set; [exact J|].
  apply json_value_assoc_set; [|exact Jv].
  now apply json_value_entry_props.
Qed.

Lemma get_remove (k : string) (m : list (string * string)) :
  Stripe.get k (Stripe.remove k m) = None.
Proof.
  induction m as [|[k0 v0] rest IH]; cbn [Stripe.remove Stripe.get]; [reflexivity|].
  destruct (k0 =? k)%string eqn:E; [exact IH|].
  cbn [Stripe.get]. now rewrite E.
Qed.

Lemma get_app (k : string) (m1 m2 : list (string * string)) :
  Stripe.get k (m1 ++ m2)
  = match Stripe.get k m1 with Some v => Some v | None => Stripe.get k m2 end.
Proof.
  induction m1 as [|[k0 v0] rest IH]; cbn [app Stripe.get]; [reflexivity|].
  now destruct (k0 =? k)%string.
Qed.

Lemma get_put (k v : string) (m : list (string * string)) :
  v <> EmptyString -> Stripe.get k (Stripe.put k v m) = Some v.
Proof.
  intros Hv. unfold Stripe.put. destruct v as [|c v]; [contradiction|].
  rewrite get_app, get_remove. cbn [Stripe.get]. now rewrite String.eqb_refl.
Qed.

Lemma filter_after_update (mail : string) (f : Stripe.customer -> Stripe.customer)
      (cs : list Stripe.customer) :
  (forall c, Stripe.email (f c) = Stripe.email c) ->
  filter (fun c => (Stripe.email c =? mail)%string) (List.map f cs)
  = List.map f (filter (fun c => (Stripe.email c =? mail)%string) cs).
Proof.
  intros Hf. induction cs as [|c rest IH]; cbn [List.map filter]; [reflexivity|].
  rewrite Hf, IH. now destruct (Stripe.email c =? mail)%string.
Qed.

Lemma ser_nonempty (v : value) : json_value v = true -> JSON.ser v <> [].
Proof.
  intros J E. pose proof (size_le_length v J) as L. rewrite E in L.
  destruct v; cbn in L; lia.
Qed.

(** A value that is written is one of an A, a CNAME or an MX update. *)
Lemma written_type (recordType rawValue : string) (v : value) :
  formatValue recordType rawValue = Ok v -> json_value v = true ->
  (recordType =? "__proto__")%string = false.
Proof.
  unfold formatValue.
  destruct (String.eqb_spec recordType "A") as [->|_]; [reflexivity|].
  destruct (String.eqb_spec recordType "CNAME") as [->|_]; [reflexivity|].
  destruct (String.eqb_spec recordType "MX") as [->|_]; [reflexivity|].
  cbn [orb]. intros [= <-]. discriminate.
Qed.

(** X17. An update of the records of a domain that has a customer, under a
    label that is not an inherited name, when Stripe accepts it: the first
    customer of the domain then holds a text that parses to the merged
    record set, in which the pair (label, type) holds the written value and
    every other pair is as it was. *)
Theorem update_then_read (st : Stripe.t) (c : Stripe.customer)
        (others : list Stripe.customer)
        (domain subdomain recordType rawValue : string) (rs : RecordSet) (v : value) :
  Stripe.up st = true ->
  filter (fun c0 => (Stripe.email c0 =? "dns@" ++ domain)%string) (Stripe.customers st)
  = c :: others ->
  JSON.parse (dns_records_text c) = Ok (js_of_set rs) ->
  valid_set rs = true ->
  is_inherited (formatSubdomain subdomain) = false ->
  formatValue recordType rawValue = Ok v ->
  json_value v = true ->
  String.length domain <= Stripe.value_limit ->
  (forall d text,
      merge (js_of_set rs) (formatSubdomain subdomain) recordType v = Ok d ->
      JSON.stringify d = Some text -> String.length text <= Stripe.value_limit) ->
  exists d c',
    merge (js_of_set rs) (formatSubdomain subdomain) recordType v = Ok d
    /\ fst (Stripe.customers_list 1 ("dns@" ++ domain)
              (snd (updateDNSRecord domain subdomain recordType rawValue st)))
       = Ok [c']
    /\ JSON.parse (dns_records_text c') = Ok d
    /\ read2 d (formatSubdomain subdomain) recordType = v
    /\ (forall label t, label <> formatSubdomain subdomain \/ t <> recordType ->
          read2 d label t = read2 (js_of_set rs) label t).
Proof.
  intros Hup Hc Hparse Hvalid Hsub Hfmt Jv Hdom Hlim.
  pose proof (written_type _ _ _ Hfmt Jv) as Hty.
  assert (Hshape : forall e,
             assoc (formatSubdomain subdomain)
                   (List.map (fun e => (fst e, js_of_records (snd e))) rs) = Some e ->
             truthy e = true -> exists ps, e = VObj ps).
  { intros e He _. rewrite assoc_js_of_set in He.
    destruct (records_of _ rs); [|discriminate]. injection He as <-.
    eexists. reflexivity. }
  destruct (merge_set_frame rs (formatSubdomain subdomain) recordType v Hsub Hty)
    as [d [Hm [Hread Hframe]]].
  assert (Jd : json_value d = true).
  { eapply json_value_merge; [exact Hshape | exact Hsub | exact Hty | | exact Jv | exact Hm].
    now apply json_value_js_of_set. }
  pose proof (parse_stringify d Jd) as RT. unfold round_trip in RT.
  destruct (JSON.stringify d) as [text|] eqn:Etext; [|discriminate RT].
  pose proof (Hlim d text Hm Etext) as Htext.
  assert (Hne : text <> EmptyString).
  { intros ->. unfold JSON.stringify in Etext.
    assert (E : string_of_list_ascii (JSON.ser d) = EmptyString)
      by (destruct d; try discriminate Jd; congruence).
    apply (ser_nonempty d Jd).
    rewrite <- (list_ascii_of_string_of_list_ascii (JSON.ser d)), E. reflexivity. }
  exists d, (Stripe.set_metadata [("dns_domain", domain); ("dns_records", text)] c).
  split; [exact Hm|].
  assert (Hin : existsb (fun c0 => Stripe.id c0 =? Stripe.id c) (Stripe.customers st)
                = true).
  { apply existsb_exists. exists c. split; [|apply Nat.eqb_refl].
    assert (I : In c (c :: others)) by (left; reflexivity).
    rewrite <- Hc in I. apply filter_In in I. tauto. }
  assert (Hrun : snd (updateDNSRecord domain subdomain recordType rawValue st)
                 = {| Stripe.up := true;
                      Stripe.customers :=
                        List.map (fun c0 => if Stripe.id c0 =? Stripe.id c
                                            then Stripe.set_metadata
                                                   [("dns_domain", domain);
                                                    ("dns_records", text)] c0
                                            else c0)
                                 (Stripe.customers st) |}).
  { unfold updateDNSRecord, try_catchST, bindST, Stripe.customers_list.
    rewrite Hup, Hc. cbn [firstn ret lift].
    unfold existing_records. rewrite Hparse, Hfmt, Hm.
    unfold new_metadata. rewrite Etext.
    unfold Stripe.customers_update. rewrite Hup, Hin.
    cbn [forallb snd andb].
    apply Nat.leb_le in Hdom, Htext. rewrite Hdom, Htext. reflexivity. }
  rewrite Hrun. unfold Stripe.customers_list. cbn [Stripe.up Stripe.customers fst].
  rewrite filter_after_update by (intros c0; now destruct (Stripe.id c0 =? Stripe.id c)).
  rewrite Hc. cbn [List.map firstn]. rewrite Nat.eqb_refl. split; [reflexivity|].
  split; [|split; assumption].
  unfold dns_records_text, Stripe.set_metadata.
  cbn [Stripe.metadata fold_left fst snd].
  rewrite (get_put _ _ _ Hne). destruct text; [contradiction | exact RT].
Qed.

End WriteThenRead.

(* ================================================================== *)
(** * A session, end to end *)
(* ================================================================== *)

Section Session.

Example session_store :
  List.map dns_records_text (Stripe.customers session)
  = match encode session_records with
    | Some text => [text]
    | None => []
    end.
Proof. vm_compute. reflexivity. Qed.

Example session_A_apex :
  ask session "example.com" Packet.TYPE.A
  = Ok [answer_of "example.com" A (AValue "1.2.3.4");
        answer_of "example.com" A (AValue "5.6.7.8")].
Proof. vm_compute. reflexivity. Qed.

Example session_MX_apex :
  ask session "example.com" Packet.TYPE.MX
  = Ok [answer_of "example.com" MX (MXValue 10 "mail.x.com.")].
Proof. vm_compute. reflexivity. Qed.

Example session_A_wildcard :
  ask session "foo.example.com" Packet.TYPE.A
  = Ok [answer_of "foo.example.com" A (AValue "9.9.9.9")].
Proof. vm_compute. reflexivity. Qed.

Example session_CNAME_www :
  ask session "www.example.com" Packet.TYPE.CNAME
  = Ok [answer_of "www.example.com" CNAME (CNAMEValue "a.com.")].
Proof. vm_compute. reflexivity. Qed.

Example session_A_falls_back_to_CNAME :
  ask session "www.example.com" Packet.TYPE.A
  = Ok [answer_of "www.example.com" CNAME (CNAMEValue "a.com.")].
Proof. vm_compute. reflexivity. Qed.

Example session_unknown_apex :
  ask session "example.org" Packet.TYPE.A = Ok [].
Proof. vm_compute. reflexivity. Qed.

Example session_other_type :
  ask session "example.com" 16%Z = Ok [].
Proof. vm_compute. reflexivity. Qed.

(** The third update of the session, read back from the store. *)
Lemma session_third_update :
  exists d c',
    merge (js_of_set [("@", [(A, [AValue "1.2.3.4"; AValue "5.6.7.8"]);
                             (MX, [MXValue 10 "mail.x.com."])])])
          "www" "CNAME" (VArr [VStr "a.com."]) = Ok d
    /\ fst (Stripe.customers_list 1 "dns@example.com"
              (update "example.com" "www" "CNAME" "a.com."
                 (update "example.com" "@" "MX" "10 mail.x.com."
                    (update "example.com" "@" "A" "1.2.3.4,5.6.7.8" empty_account))))
       = Ok [c']
    /\ JSON.parse (dns_records_text c') = Ok d
    /\ read2 d "www" "CNAME" = VArr [VStr "a.com."]
    /\ (forall label t, label <> "www" \/ t <> "CNAME" ->
          read2 d label t
          = read2 (js_of_set [("@", [(A, [AValue "1.2.3.4"; AValue "5.6.7.8"]);
                                     (MX, [MXValue 10 "mail.x.com."])])]) label t).
Proof.
  eapply (update_then_read
            (update "example.com" "@" "MX" "10 mail.x.com."
               (update "example.com" "@" "A" "1.2.3.4,5.6.7.8" empty_account))
            _ [] "example.com" "www" "CNAME" "a.com."
            [("@", [(A, [AValue "1.2.3.4"; AValue "5.6.7.8"]);
                    (MX, [MXValue 10 "mail.x.com."])])]
            (VArr [VStr "a.com."])).
  - reflexivity.
  - vm_compute. reflexivity.
  - vm_compute. reflexivity.
  - reflexivity.
  - reflexivity.
  - reflexivity.
  - reflexivity.
  - vm_compute. lia.
  - intros d text Hm Ht. vm_compute in Hm. injection Hm as <-.
    vm_compute in Ht. injection Ht as <-. vm_compute. lia.
Defined.

End Session.

(* ================================================================== *)
(** * More on the domain parser *)
(* ================================================================== *)

Section ParserShape.

Lemma last_two_cases {T} (l : list T) :
  l = [] \/ (exists a, l = [a]) \/ exists ps a b, l = ps ++ [a; b].
Proof.
  induction l as [|x l IH]; [now left|]. right.
  destruct IH as [-> | [[a ->] | [ps [a [b ->]]]]].
  - left. now exists x.
  - right. now exists [], x, a.
  - right. now exists (x :: ps), a, b.
Qed.

Lemma slice_last_two {T} (ps : list T) (a b : T) :
  JsString.slice (-2) None (ps ++ [a; b]) = [a; b].
Proof.
  unfold JsString.slice, JsString.rel_index. cbn [Z.ltb Z.compare].
  rewrite length_app. cbn [List.length].
  replace (Z.to_nat (Z.max (Z.of_nat (List.length ps + 2) + -2) 0))
    with (List.length ps) by lia.
  rewrite skipn_app, skipn_all, Nat.sub_diag. cbn [app skipn].
  now replace (List.length ps + 2 - List.length ps) with 2 by lia.
Qed.

Lemma slice_but_last_two {T} (ps : list T) (a b : T) :
  JsString.slice 0 (Some (-2)%Z) (ps ++ [a; b]) = ps.
Proof.
  unfold JsString.slice, JsString.rel_index. cbn [Z.ltb Z.compare Z.to_nat Nat.min skipn].
  rewrite length_app. cbn [List.length].
  replace (Z.to_nat (Z.max (Z.of_nat (List.length ps + 2) + -2) 0) - 0)
    with (List.length ps + 0) by lia.
  now rewrite firstn_app_2, firstn_O, app_nil_r.
Qed.

Lemma string_app_assoc (a b c : string) :
  ((a ++ b) ++ c)%string = (a ++ b ++ c)%string.
Proof. induction a as [|x a IH]; simpl; [reflexivity | now rewrite IH]. Qed.

Lemma join_app (sep : string) (xs ys : list string) :
  xs <> [] -> ys <> [] ->
  JsString.join sep (xs ++ ys)
  = (JsString.join sep xs ++ sep ++ JsString.join sep ys)%string.
Proof.
  intros Hx Hy. induction xs as [|x xs IH]; [contradiction|].
  destruct xs as [|x' xs].
  - destruct ys; [contradiction | reflexivity].
  - change (JsString.join sep ((x :: x' :: xs) ++ ys))
      with (x ++ sep ++ JsString.join sep ((x' :: xs) ++ ys))%string.
    rewrite IH by discriminate.
    change (JsString.join sep (x :: x' :: xs))
      with (x ++ sep ++ JsString.join sep (x' :: xs))%string.
    now rewrite !string_app_assoc.
Qed.

(** The parser on the pieces of a name. *)
Lemma parse_pieces (name : string) (ps : list string) (a b : string) :
  JsString.split "." name = ps ++ [a; b] ->
  parseDomainParts name
  = {| topDomain := (a ++ "." ++ b)%string;
       subdomain := str_or (JsString.join "." ps) "@" |}.
Proof.
  intros E. unfold parseDomainParts.
  now rewrite E, slice_last_two, slice_but_last_two.
Qed.

(** X1. A name of two or more dot-separated pieces: the apex is the last
    two pieces joined by a dot, the label is the pieces before them joined
    by dots, and ["@"] when that is the empty string. *)
Theorem parse_two_or_more (ps : list string) (a b : string) :
  Forall (fun p => JsString.contains "." p = false) (ps ++ [a; b]) ->
  parseDomainParts (JsString.join "." (ps ++ [a; b]))
  = {| topDomain := (a ++ "." ++ b)%string;
       subdomain := str_or (JsString.join "." ps) "@" |}.
Proof.
  intros H. apply parse_pieces, split_join; [|exact H].
  destruct ps; discriminate.
Qed.

Lemma parse_two_or_more_witness :
  parseDomainParts "a.b.example.com"
  = {| topDomain := "example.com"; subdomain := "a.b" |}
  /\ parseDomainParts ".example.com"
     = {| topDomain := "example.com"; subdomain := "@" |}.
Proof.
  split.
  - apply (parse_two_or_more ["a"; "b"] "example" "com"). repeat constructor.
  - apply (parse_two_or_more [""] "example" "com"). repeat constructor.
Defined.

(** X2. Whatever the name, the apex has at most two labels, and the label
    is not the empty string. *)
Theorem apex_has_at_most_two_labels (name : string) :
  List.length (JsString.split "." (topDomain (parseDomainParts name))) <= 2
  /\ subdomain (parseDomainParts name) <> EmptyString.
Proof.
  split.
  - pose proof (split_pieces "." name) as F.
    pose proof (split_nonempty "." name) as N.
    destruct (last_two_cases (JsString.split "." name))
      as [E | [[a E] | [ps [a [b E]]]]]; [contradiction | |].
    + unfold parseDomainParts. rewrite E in *. cbn.
      inversion F as [|x l Ha Hl]; subst.
      rewrite (split_without_separator _ _ Ha). cbn. lia.
    + rewrite (parse_pieces _ _ _ _ E). cbn [topDomain].
      rewrite E in F. apply Forall_app in F. destruct F as [_ F].
      change (a ++ "." ++ b)%string with (JsString.join "." [a; b]).
      rewrite split_join; [cbn; lia | discriminate | exact F].
  - unfold parseDomainParts. cbn [subdomain].
    destruct (JsString.join "." _); discriminate.
Qed.

(** X3. The parser loses nothing: the name is the apex itself, with label
    ["@"], or it is [l ++ "." ++ apex], and the label is [l], or ["@"]
    when [l] is empty. *)
Theorem parse_decomposes_name (name : string) :
  (name = topDomain (parseDomainParts name)
   /\ subdomain (parseDomainParts name) = "@")
  \/ exists l, name = (l ++ "." ++ topDomain (parseDomainParts name))%string
               /\ subdomain (parseDomainParts name) = str_or l "@".
Proof.
  pose proof (join_split "." name) as J.
  pose proof (split_nonempty "." name) as N.
  destruct (last_two_cases (JsString.split "." name))
    as [E | [[a E] | [ps [a [b E]]]]]; [contradiction | |].
  - left. unfold parseDomainParts. rewrite E in *. cbn in *. now split.
  - rewrite (parse_pieces _ _ _ _ E). cbn [topDomain subdomain].
    rewrite E in J. destruct ps as [|p ps].
    + left. cbn in *. now split.
    + right. exists (JsString.join "." (p :: ps)). split; [|reflexivity].
      rewrite <- J. rewrite join_app by discriminate. reflexivity.
Qed.

End ParserShape.

(* ================================================================== *)
(** * More on the read path *)
(* ================================================================== *)

Section ReadPath.

Lemma resolve_null_or_truthy (dnsRecords : value) (label : string) (v : value) :
  resolve dnsRecords label = Ok v -> v = VNull \/ truthy v = true.
Proof.
  unfold resolve, bind, or_else.
  destruct (get_prop dnsRecords label) as [r|]; [|discriminate].
  destruct (if negb (truthy r) && negb (label =? "@")%string
            then get_prop dnsRecords "*" else Ok r) as [r'|]; [|discriminate].
  intros [= <-]. destruct (truthy r') eqn:T; [now right | now left].
Qed.

(** X4. The lookup raises nothing and leaves the store as it was; what it
    returns is [null] or a truthy value, whatever the store holds and
    whether or not it answers. *)
Theorem lookup_total_read_only (domain label : string) (stripe : Stripe.t) :
  exists v,
    lookupDnsRecords domain label stripe = (Ok v, stripe)
    /\ (v = VNull \/ truthy v = true).
Proof.
  unfold lookupDnsRecords, try_catchST, bindST, Stripe.customers_list.
  destruct (Stripe.up stripe); [|exists VNull; split; [reflexivity | now left]].
  destruct (firstn 1 _) as [|c cs]; [exists VNull; split; [reflexivity | now left]|].
  unfold lift, try_catch, bind.
  destruct (JSON.parse (dns_records_text c)) as [d|];
    [|exists VNull; split; [reflexivity | now left]].
  destruct (resolve d label) as [v|] eqn:R;
    [|exists VNull; split; [reflexivity | now left]].
  exists v. split; [reflexivity | exact (resolve_null_or_truthy _ _ _ R)].
Qed.

Variable queryName : string.

Lemma keeps_ret {T} (x : T) : keeps_stamped queryName (ret x).
Proof. intros s r s' [= _ <-] H. exact H. Qed.

Lemma keeps_lift {T} (x : result T) : keeps_stamped queryName (lift x).
Proof. intros s r s' [= _ <-] H. exact H. Qed.

Lemma keeps_bind {T U} (m : ST (list answer) T) (k : T -> ST (list answer) U) :
  keeps_stamped queryName m -> (forall x, keeps_stamped queryName (k x)) ->
  keeps_stamped queryName (bindST m k).
Proof.
  intros Hm Hk s r s' E H. unfold bindST in E.
  destruct (m s) as [[x|e] s1] eqn:M.
  - exact (Hk x _ _ _ E (Hm _ _ _ M H)).
  - injection E as _ <-. exact (Hm _ _ _ M H).
Qed.

Lemma keeps_addRecord (ty : Z) (r : record) :
  keeps_stamped queryName (addRecord queryName ty r).
Proof.
  intros s res s' [= _ <-] H. apply Forall_app. split; [exact H|].
  repeat constructor.
Qed.

Lemma keeps_forEach (v : value) (callback : value -> ST (list answer) unit) :
  (forall x, keeps_stamped queryName (callback x)) ->
  keeps_stamped queryName (forEach v callback).
Proof.
  intros Hc. destruct v as [| | | | |elems| |[|[]|]]; try apply keeps_lift;
    try apply keeps_ret.
  cbn [forEach]. induction elems as [|x rest IH]; cbn [forEach_list].
  - apply keeps_ret.
  - apply keeps_bind; [apply Hc | intros _; exact IH].
Qed.

Lemma keeps_add_A (ip : value) : keeps_stamped queryName (add_A queryName ip).
Proof.
  unfold add_A, console_log.
  apply keeps_bind; [apply keeps_lift|]. intros text.
  apply keeps_bind; [apply keeps_ret | intros _; apply keeps_addRecord].
Qed.

Lemma keeps_add_CNAME (cname : value) :
  keeps_stamped queryName (add_CNAME queryName cname).
Proof.
  unfold add_CNAME, console_log.
  apply keeps_bind; [apply keeps_lift|]. intros logged.
  apply keeps_bind; [apply keeps_lift|]. intros text.
  apply keeps_bind; [apply keeps_ret|]. intros _.
  apply keeps_bind; [apply keeps_lift | intros first; apply keeps_addRecord].
Qed.

Lemma keeps_add_MX (mx : value) : keeps_stamped queryName (add_MX queryName mx).
Proof.
  unfold add_MX, console_log.
  apply keeps_bind; [apply keeps_lift|]. intros exchange.
  apply keeps_bind; [apply keeps_lift|]. intros exchangeText.
  apply keeps_bind; [apply keeps_lift|]. intros priority.
  apply keeps_bind; [apply keeps_lift|]. intros priorityText.
  apply keeps_bind; [apply keeps_ret|]. intros _.
  apply keeps_bind; [apply keeps_lift|]. intros priority'.
  apply keeps_bind; [apply keeps_lift | intros exchange'; apply keeps_addRecord].
Qed.

Lemma keeps_addRecordsToResponse (recordSet : value) (ty : Z) :
  keeps_stamped queryName (addRecordsToResponse queryName recordSet ty).
Proof.
  assert (HC : keeps_stamped queryName
                 (cname <- lift (get_prop recordSet "CNAME") ;;
                  if truthy cname then
                    add_CNAME queryName cname ;;
                    ret true
                  else ret false)%st).
  { apply keeps_bind; [apply keeps_lift|]. intros c.
    destruct (truthy c); [|apply keeps_ret].
    apply keeps_bind; [apply keeps_add_CNAME | intros _; apply keeps_ret]. }
  unfold addRecordsToResponse.
  destruct (ty =? Packet.TYPE.A)%Z.
  - apply keeps_bind; [apply keeps_lift|]. intros a.
    destruct (truthy a); [|exact HC].
    apply keeps_bind; [|intros _; apply keeps_ret].
    apply keeps_forEach, keeps_add_A.
  - destruct (ty =? Packet.TYPE.CNAME)%Z; [exact HC|].
    destruct (ty =? Packet.TYPE.MX)%Z; [|apply keeps_ret].
    apply keeps_bind; [apply keeps_lift|]. intros mx.
    apply keeps_bind.
    + apply keeps_forEach, keeps_add_MX.
    + intros _. apply keeps_bind; [apply keeps_lift | intros len; apply keeps_ret].
Qed.

End ReadPath.

Section HandlerShape.

(** X5. A request with a question always gets a response, and every answer
    in it carries the queried name as it was asked, the class IN and the TTL
    300: the synthesised answers and the fallback alike, whatever the store
    holds. *)
Theorem answers_are_stamped (stripe : Stripe.t) (q : question) (qs : list question) :
  exists answers,
    _handleRequest stripe (q :: qs) = Ok answers
    /\ Forall (stamped (qname q)) answers.
Proof.
  unfold _handleRequest. eexists. split; [reflexivity|].
  unfold try_catchST.
  assert (K : keeps_stamped (qname q) (pipeline stripe (qname q) (qtype q))).
  { unfold pipeline. apply keeps_bind; [apply keeps_lift|]. intros rs.
    destruct (truthy rs); [|apply keeps_ret].
    apply keeps_bind; [apply keeps_addRecordsToResponse | intros _; apply keeps_ret]. }
  destruct (pipeline stripe (qname q) (qtype q) []) as [[u|e] answers] eqn:E;
    pose proof (K _ _ _ E (Forall_nil _)) as H; cbn [snd]; [exact H|].
  apply Forall_app. split; [exact H | repeat constructor].
Qed.

(** X6. A query of a type other than A, CNAME and MX gets an empty answer
    section, whatever the store holds: no answer and no fallback. *)
Theorem other_types_get_no_answer (stripe : Stripe.t) (q : question)
        (qs : list question) :
  qtype q <> Packet.TYPE.A -> qtype q <> Packet.TYPE.CNAME ->
  qtype q <> Packet.TYPE.MX ->
  _handleRequest stripe (q :: qs) = Ok [].
Proof.
  intros HA HC HM. apply Z.eqb_neq in HA, HC, HM.
  unfold _handleRequest, try_catchST, pipeline, bindST at 1, lift at 1.
  destruct (lookup_never_throws stripe (topDomain (parseDomainParts (qname q)))
              (subdomain (parseDomainParts (qname q)))) as [v ->].
  destruct (truthy v); [|reflexivity].
  unfold bindST, addRecordsToResponse. rewrite HA, HC, HM. reflexivity.
Qed.

Lemma other_types_get_no_answer_witness :
  _handleRequest (serving session_records)
                 [{| qname := "example.com"; qtype := 16%Z |}] = Ok [].
Proof.
  apply (other_types_get_no_answer (serving session_records)
           {| qname := "example.com"; qtype := 16%Z |} []); discriminate.
Defined.

(** What a label resolves to in a record set: the entry it is answered
    from, or [null], or a built-in. *)
Lemma resolve_resolved (label : string) (rs : RecordSet) :
  exists v,
    resolve (js_of_set rs) label = Ok v
    /\ match resolved label rs with
       | Some tr => v = js_of_records tr
       | None => v = VNull \/ exists b, v = VBuiltin b
       end.
Proof.
  rewrite resolve_label. unfold resolved. eexists. split; [reflexivity|].
  destruct (records_of label rs) as [tr|]; [reflexivity|].
  destruct (is_inherited label) eqn:I.
  - rewrite orb_true_r. right. exact (inherited_builtin label I).
  - rewrite orb_false_r. destruct (label =? "@")%string; [now left|].
    destruct (records_of "*" rs); [reflexivity | now left].
Qed.

(** A built-in holds no records: nothing is pushed and nothing is
    raised. *)
Lemma answers_builtin (name : string) (b : builtin) (ty : Z) (answers : list answer) :
  addRecordsToResponse name (VBuiltin b) ty answers = (Ok false, answers).
Proof.
  unfold addRecordsToResponse.
  destruct (ty =? Packet.TYPE.A)%Z; [reflexivity|].
  destruct (ty =? Packet.TYPE.CNAME)%Z; [reflexivity|].
  destruct (ty =? Packet.TYPE.MX)%Z; reflexivity.
Qed.

Lemma valid_records_of (label : string) (rs : RecordSet) (tr : TypeRecords) :
  valid_set rs = true -> records_of label rs = Some tr -> valid_records tr = true.
Proof.
  unfold valid_set. intros H. apply andb_true_iff in H. destruct H as [_ H].
  induction rs as [|[l t] rest IH]; cbn [records_of forallb snd] in *; [discriminate|].
  apply andb_true_iff in H. destruct H as [Ht Hrest].
  destruct (l =? label)%string; [intros [= <-]; exact Ht | exact (IH Hrest)].
Qed.

Lemma valid_resolved (label : string) (rs : RecordSet) (tr : TypeRecords) :
  valid_set rs = true -> resolved label rs = Some tr -> valid_records tr = true.
Proof.
  intros V. unfold resolved.
  destruct (records_of label rs) as [t|] eqn:E.
  - intros [= <-]. exact (valid_records_of _ _ _ V E).
  - destruct ((label =? "@")%string || is_inherited label); [discriminate|].
    apply valid_records_of, V.
Qed.

(** The response to a query on a valid record set. *)
Lemma handle_record_set (stripe : Stripe.t) (q : question) (qs : list question)
      (c : Stripe.customer) (cs : list Stripe.customer) (rs : RecordSet) :
  fst (Stripe.customers_list 1 ("dns@" ++ topDomain (parseDomainParts (qname q))) stripe)
  = Ok (c :: cs) ->
  JSON.parse (dns_records_text c) = Ok (js_of_set rs) ->
  valid_set rs = true ->
  _handleRequest stripe (q :: qs)
  = Ok (match resolved (subdomain (parseDomainParts (qname q))) rs with
        | Some tr => expected (qname q) tr (qtype q)
        | None => []
        end).
Proof.
  intros Hl Hp V.
  pose proof (lookup_resolves stripe _ (subdomain (parseDomainParts (qname q)))
                c cs _ Hl Hp) as L.
  destruct (resolve_resolved (subdomain (parseDomainParts (qname q))) rs)
    as [v [Rv Hv]].
  rewrite Rv in L.
  destruct (resolved _ rs) as [tr|] eqn:R.
  - subst v. pose proof (valid_resolved _ _ _ V R) as Vt.
    rewrite (handle_valid_entry stripe q qs tr L Vt).
    now rewrite (answers_expected (qname q) tr (qtype q) Vt).
  - unfold _handleRequest, try_catchST, pipeline, bindST at 1, lift at 1. rewrite L.
    destruct Hv as [->|[b ->]]; [reflexivity|].
    cbn [truthy]. unfold bindST. now rewrite answers_builtin.
Qed.

(** X8. When the first customer of the apex holds the text of a valid
    record set, the response is built from the entry the label is answered
    from and from nothing else: the entry stored under the label, else,
    unless the label is ["@"] or the name of an inherited property, the entry
    stored under ["*"]. The response holds the expected answers of that
    entry, and no answer when there is none. The fallback answer does not
    occur. *)
Theorem handle_valid_store (stripe : Stripe.t) (q : question) (qs : list question)
        (c : Stripe.customer) (cs : list Stripe.customer) (rs : RecordSet) :
  fst (Stripe.customers_list 1 ("dns@" ++ topDomain (parseDomainParts (qname q))) stripe)
  = Ok (c :: cs) ->
  JSON.parse (dns_records_text c) = Ok (js_of_set rs) ->
  valid_set rs = true ->
  _handleRequest stripe (q :: qs)
  = Ok (match resolved (subdomain (parseDomainParts (qname q))) rs with
        | Some tr => expected (qname q) tr (qtype q)
        | None => []
        end).
Proof. exact (handle_record_set stripe q qs c cs rs). Qed.

Lemma handle_valid_store_witness :
  _handleRequest (serving session_records)
                 [{| qname := "foo.example.com"; qtype := Packet.TYPE.A |}]
  = Ok [answer_of "foo.example.com" A (AValue "9.9.9.9")].
Proof.
  apply (handle_valid_store (serving session_records)
           {| qname := "foo.example.com"; qtype := Packet.TYPE.A |} []
           {| Stripe.id := 1; Stripe.email := "dns@example.com";
              Stripe.name := "DNS records for example.com";
              Stripe.metadata := new_metadata "example.com" (js_of_set session_records) |}
           [] session_records).
  - reflexivity.
  - vm_compute. reflexivity.
  - reflexivity.
Defined.

End HandlerShape.

Section FallbackShape.

Lemma failure_gives_only_fallback_witness :
  pipeline (store_with "example.com" cname_object) "example.com" Packet.TYPE.CNAME []
  = (Throw TypeError, [])
  /\ _handleRequest (store_with "example.com" cname_object)
                    [{| qname := "example.com"; qtype := Packet.TYPE.CNAME |}]
     = Ok [fallback "example.com"].
Proof.
  assert (H : pipeline (store_with "example.com" cname_object) "example.com"
                       Packet.TYPE.CNAME [] = (Throw TypeError, []))
    by (vm_compute; reflexivity).
  split; [exact H|].
  apply (failure_gives_only_fallback (store_with "example.com" cname_object)
           {| qname := "example.com"; qtype := Packet.TYPE.CNAME |} [] TypeError []);
    [reflexivity | exact H].
Defined.

Lemma formatMX_drops_tail_witness :
  formatMX "10 mail.example.com backup" = Ok (mx_entry "10" "mail.example.com").
Proof.
  apply (formatMX_drops_tail "10 mail.example.com backup" "10" "mail.example.com"
                             "backup"); reflexivity.
Defined.

End FallbackShape.

(* ================================================================== *)
(** * More on the writer: the values it stores *)
(* ================================================================== *)

Section StoredValues.

Lemma trimStart_starts (s : string) : starts_white (JsString.trimStart s) = false.
Proof.
  induction s as [|c r IH]; cbn [JsString.trimStart]; [reflexivity|].
  destruct (JsString.is_white c) eqn:W; [exact IH | cbn; exact W].
Qed.

Lemma trimEnd_ends (s : string) : ends_white (JsString.trimEnd s) = false.
Proof.
  induction s as [|c r IH]; cbn [JsString.trimEnd]; [reflexivity|].
  destruct (JsString.trimEnd r) as [|d r'] eqn:E.
  - destruct (JsString.is_white c) eqn:W; [reflexivity | cbn; exact W].
  - exact IH.
Qed.

Lemma trimEnd_starts (s : string) :
  starts_white s = false -> starts_white (JsString.trimEnd s) = false.
Proof.
  destruct s as [|c r]; cbn [JsString.trimEnd starts_white]; [reflexivity|].
  intros W. destruct (JsString.trimEnd r); [rewrite W|]; exact W.
Qed.

Lemma trimStart_contains (c : ascii) (s : string) :
  JsString.contains c s = false -> JsString.contains c (JsString.trimStart s) = false.
Proof.
  induction s as [|d r IH]; cbn [JsString.trimStart JsString.contains]; [reflexivity|].
  intros H. destruct (JsString.is_white d); [|exact H].
  apply orb_false_iff in H. now apply IH.
Qed.

Lemma trimEnd_contains (c : ascii) (s : string) :
  JsString.contains c s = false -> JsString.contains c (JsString.trimEnd s) = false.
Proof.
  induction s as [|d r IH]; cbn [JsString.trimEnd JsString.contains]; [reflexivity|].
  intros H. apply orb_false_iff in H. destruct H as [Hd Hr]. specialize (IH Hr).
  destruct (JsString.trimEnd r) as [|e r'].
  - destruct (JsString.is_white d); [reflexivity|cbn; now rewrite Hd].
  - cbn [JsString.contains] in *. now rewrite Hd, IH.
Qed.

Lemma tidy_trim (s : string) :
  JsString.contains "," s = false -> tidy (JsString.trim s) = true.
Proof.
  intros H. unfold tidy, JsString.trim.
  rewrite (trimEnd_contains _ _ (trimStart_contains _ _ H)).
  rewrite (trimEnd_starts _ (trimStart_starts s)), trimEnd_ends. reflexivity.
Qed.

Lemma trimStart_fixed (s : string) :
  starts_white s = false -> JsString.trimStart s = s.
Proof. destruct s as [|c r]; cbn; [reflexivity | now intros ->]. Qed.

Lemma trimEnd_fixed (s : string) :
  ends_white s = false -> JsString.trimEnd s = s.
Proof.
  induction s as [|c r IH]; cbn [JsString.trimEnd ends_white]; [reflexivity|].
  destruct r as [|d r'].
  - cbn. now intros ->.
  - intros H. rewrite (IH H). reflexivity.
Qed.

Lemma trim_tidy (s : string) : tidy s = true -> JsString.trim s = s.
Proof.
  unfold tidy, JsString.trim. intros H.
  apply andb_true_iff in H. destruct H as [H E].
  apply andb_true_iff in H. destruct H as [_ S].
  apply negb_true_iff in S, E.
  now rewrite (trimStart_fixed _ S), (trimEnd_fixed _ E).
Qed.

(** X9. For the types A and CNAME the writer never raises and never stores
    an empty list: it stores one string per comma-separated piece, each
    without a comma and without white space at its ends. *)
Theorem formatValue_list_shape (rawValue : string) :
  exists first rest,
    formatValue "A" rawValue = Ok (VArr (List.map VStr (first :: rest)))
    /\ formatValue "CNAME" rawValue = Ok (VArr (List.map VStr (first :: rest)))
    /\ Forall (fun s => tidy s = true) (first :: rest).
Proof.
  pose proof (split_nonempty "," rawValue) as N.
  pose proof (split_pieces "," rawValue) as F.
  unfold formatValue. cbn [String.eqb Ascii.eqb Bool.eqb orb].
  destruct (JsString.split "," rawValue) as [|p ps]; [contradiction|].
  exists (JsString.trim p), (List.map JsString.trim ps).
  rewrite <- (map_map JsString.trim VStr (p :: ps)).
  repeat split.
  change (JsString.trim p :: List.map JsString.trim ps)
    with (List.map JsString.trim (p :: ps)).
  apply Forall_map. revert F. apply Forall_impl. intros s. apply tidy_trim.
Qed.

(** X10. Values that are already tidy are stored as they are, in their
    order: the writer's normalisation of A and CNAME values changes nothing
    when applied to its own output joined by commas. *)
Theorem formatValue_tidy_values (values : list string) :
  values <> [] ->
  Forall (fun s => tidy s = true) values ->
  formatValue "A" (JsString.join "," values) = Ok (VArr (List.map VStr values))
  /\ formatValue "CNAME" (JsString.join "," values) = Ok (VArr (List.map VStr values)).
Proof.
  intros N T.
  assert (C : Forall (fun p => JsString.contains "," p = false) values).
  { revert T. apply Forall_impl. intros s H. unfold tidy in H.
    apply andb_true_iff in H. destruct H as [H _].
    apply andb_true_iff in H. destruct H as [H _]. now apply negb_true_iff in H. }
  unfold formatValue. cbn [String.eqb Ascii.eqb Bool.eqb orb].
  rewrite (split_join _ _ N C).
  assert (E : List.map (fun v => VStr (JsString.trim v)) values = List.map VStr values).
  { apply map_ext_in. intros s Hin. rewrite Forall_forall in T.
    now rewrite (trim_tidy s (T s Hin)). }
  rewrite E. split; reflexivity.
Qed.

Lemma formatValue_tidy_values_witness :
  formatValue "A" "192.168.1.2,192.168.1.3"
  = Ok (VArr [VStr "192.168.1.2"; VStr "192.168.1.3"]).
Proof.
  apply (formatValue_tidy_values ["192.168.1.2"; "192.168.1.3"]).
  - discriminate.
  - repeat constructor.
Defined.

End StoredValues.

(* ================================================================== *)
(** * More on the writer: what an update does to the store *)
(* ================================================================== *)

Section UpdateRuns.

Variables (domain subdomain recordType rawValue : string).

Lemma update_down (st : Stripe.t) :
  Stripe.up st = false ->
  updateDNSRecord domain subdomain recordType rawValue st = (Ok tt, st).
Proof.
  intros H. unfold updateDNSRecord, try_catchST, bindST, Stripe.customers_list.
  now rewrite H.
Qed.

Lemma update_existing (st : Stripe.t) (c : Stripe.customer)
      (others : list Stripe.customer) :
  Stripe.up st = true ->
  customers_of domain st = c :: others ->
  updateDNSRecord domain subdomain recordType rawValue st
  = (Ok tt,
     match updated subdomain recordType rawValue (existing_records c) with
     | Ok d => snd (Stripe.customers_update (Stripe.id c) (new_metadata domain d) st)
     | Throw _ => st
     end).
Proof.
  intros Hup Hc. unfold customers_of in Hc.
  unfold updateDNSRecord, try_catchST, bindST, Stripe.customers_list, updated, bind,
    ret, lift.
  rewrite Hup, Hc. cbn [firstn].
  destruct (formatValue recordType rawValue) as [v|]; [|reflexivity].
  destruct (merge _ _ _ v) as [d|]; [|reflexivity].
  destruct (Stripe.customers_update _ _ st) as [[[]|e] st']; reflexivity.
Qed.

Lemma update_new (st : Stripe.t) :
  Stripe.up st = true ->
  customers_of domain st = [] ->
  updateDNSRecord domain subdomain recordType rawValue st
  = (Ok tt,
     match updated subdomain recordType rawValue (VObj []) with
     | Ok d => snd (Stripe.customers_update (Stripe.fresh_id st) (new_metadata domain d)
                                            (with_new_customer st domain))
     | Throw _ => with_new_customer st domain
     end).
Proof.
  intros Hup Hc. unfold customers_of in Hc.
  unfold updateDNSRecord, try_catchST, bindST, Stripe.customers_list,
    Stripe.customers_create, updated, bind, ret, lift.
  rewrite Hup, Hc. cbn [firstn]. rewrite Hup. cbn [Stripe.id].
  fold (new_customer st domain). fold (with_new_customer st domain).
  destruct (formatValue recordType rawValue) as [v|]; [|reflexivity].
  destruct (merge _ _ _ v) as [d|]; [|reflexivity].
  destruct (Stripe.customers_update _ _ _) as [[[]|e] st']; reflexivity.
Qed.

Lemma update_returns (st : Stripe.t) :
  fst (updateDNSRecord domain subdomain recordType rawValue st) = Ok tt.
Proof.
  destruct (Stripe.up st) eqn:Hup; [|now rewrite update_down].
  destruct (customers_of domain st) as [|c others] eqn:Hc.
  - now rewrite update_new.
  - now rewrite (update_existing st c others).
Qed.

(** X19. The update lets no exception out: whatever fails, the call
    returns normally; and when Stripe does not answer, the store is left as
    it was. *)
Theorem update_swallows_errors (st : Stripe.t) :
  fst (updateDNSRecord domain subdomain recordType rawValue st) = Ok tt
  /\ (Stripe.up st = false ->
      snd (updateDNSRecord domain subdomain recordType rawValue st) = st).
Proof.
  split; [apply update_returns|]. intros H. now rewrite update_down.
Qed.

End UpdateRuns.

Section StoreAfterUpdate.

Lemma customers_update_run (st : Stripe.t) (cid : nat) (meta : list (string * string)) :
  Stripe.up st = true ->
  existsb (fun c => Stripe.id c =? cid) (Stripe.customers st) = true ->
  forallb (fun kv => String.length (snd kv) <=? Stripe.value_limit) meta = true ->
  snd (Stripe.customers_update cid meta st)
  = {| Stripe.up := true;
       Stripe.customers :=
         List.map (fun c => if Stripe.id c =? cid then Stripe.set_metadata meta c else c)
                  (Stripe.customers st) |}.
Proof.
  intros Hup Hin Hlim. unfold Stripe.customers_update.
  now rewrite Hup, Hin, Hlim.
Qed.

Lemma customers_of_head (domain : string) (st : Stripe.t) (c : Stripe.customer)
      (others : list Stripe.customer) :
  customers_of domain st = c :: others ->
  In c (Stripe.customers st) /\ Stripe.email c = ("dns@" ++ domain)%string.
Proof.
  unfold customers_of. intros H.
  assert (I : In c (c :: others)) by now left.
  rewrite <- H in I. apply filter_In in I. destruct I as [I E].
  split; [exact I | now apply String.eqb_eq].
Qed.

Lemma stringify_nonempty (d : value) (text : string) :
  json_value d = true -> JSON.stringify d = Some text -> text <> EmptyString.
Proof.
  intros J E ->. unfold JSON.stringify in E.
  assert (E' : string_of_list_ascii (JSON.ser d) = EmptyString)
    by (destruct d; try discriminate J; congruence).
  apply (ser_nonempty d J).
  rewrite <- (list_ascii_of_string_of_list_ascii (JSON.ser d)), E'. reflexivity.
Qed.

(** The text Stripe holds after an accepted write parses to what was
    written. *)
Lemma written_text_parses (domain : string) (d : value) (c : Stripe.customer) :
  json_value d = true ->
  JSON.parse (dns_records_text (Stripe.set_metadata (new_metadata domain d) c)) = Ok d.
Proof.
  intros J. pose proof (parse_stringify d J) as RT. unfold round_trip in RT.
  unfold new_metadata. destruct (JSON.stringify d) as [text|] eqn:E; [|discriminate RT].
  pose proof (stringify_nonempty d text J E) as Hne.
  unfold dns_records_text, Stripe.set_metadata.
  cbn [Stripe.metadata fold_left fst snd].
  rewrite (get_put _ _ _ Hne). destruct text; [contradiction | exact RT].
Qed.

(** An accepted write for the first customer of a domain: that customer
    stays first, with the new metadata. *)
Lemma stored_for_first_customer (domain : string) (st : Stripe.t) (c : Stripe.customer)
      (others : list Stripe.customer) (d : value) :
  Stripe.up st = true ->
  customers_of domain st = c :: others ->
  accepted domain d = true ->
  exists rest,
    customers_of domain
      (snd (Stripe.customers_update (Stripe.id c) (new_metadata domain d) st))
    = Stripe.set_metadata (new_metadata domain d) c :: rest.
Proof.
  intros Hup Hc Hacc. destruct (customers_of_head _ _ _ _ Hc) as [Hin _].
  rewrite customers_update_run; [| exact Hup | | exact Hacc].
  - unfold customers_of in *. cbn [Stripe.customers].
    rewrite filter_after_update
      by (intros c0; now destruct (Stripe.id c0 =? Stripe.id c)).
    rewrite Hc. cbn [List.map]. rewrite Nat.eqb_refl. eexists. reflexivity.
  - apply existsb_exists. exists c. split; [exact Hin | apply Nat.eqb_refl].
Qed.

Lemma mapM_formatMX_throws (segments : list string) :
  existsb (fun seg => negb (JsString.contains " " (JsString.trim seg))) segments = true ->
  mapM formatMX segments = Throw TypeError.
Proof.
  induction segments as [|s rest IH]; cbn [existsb mapM]; [discriminate|].
  intros H. unfold bind at 1.
  destruct (formatMX s) as [y|e] eqn:F.
  - destruct (JsString.contains " " (JsString.trim s)) eqn:C.
    + cbn [negb orb] in H. now rewrite (IH H).
    + rewrite (formatMX_no_space s C) in F. discriminate.
  - unfold formatMX in F. destruct (JsString.split " " _) as [|p [|x l]];
      try discriminate; now injection F as <-.
Qed.

Lemma formatValue_MX_throws (rawValue : string) :
  segment_without_space rawValue = true ->
  formatValue "MX" rawValue = Throw TypeError.
Proof.
  intros H. unfold formatValue. cbn [String.eqb Ascii.eqb Bool.eqb orb].
  now rewrite (mapM_formatMX_throws _ H).
Qed.

(** X11. An MX update in which some segment has no space raises before
    anything is written: for a domain that has a customer, the store is left
    exactly as it was. *)
Theorem bad_mx_leaves_store (st : Stripe.t) (c : Stripe.customer)
        (others : list Stripe.customer) (domain subdomain rawValue : string) :
  Stripe.up st = true ->
  customers_of domain st = c :: others ->
  segment_without_space rawValue = true ->
  snd (updateDNSRecord domain subdomain "MX" rawValue st) = st.
Proof.
  intros Hup Hc Hbad. rewrite (update_existing _ _ _ _ st c others Hup Hc).
  unfold updated. now rewrite (formatValue_MX_throws _ Hbad).
Qed.

Lemma bad_mx_leaves_store_witness :
  snd (updateDNSRecord "example.com" "@" "MX" "mail.example.com" bare_customer)
  = bare_customer.
Proof.
  apply (bad_mx_leaves_store bare_customer (new_customer empty_account "example.com") []);
    reflexivity.
Defined.

(** X12. The same failing update for a domain that has no customer yet
    still creates the customer, with empty metadata, before it raises; every
    query for a name of that domain is then answered with an empty answer
    section. *)
Theorem bad_mx_still_creates_customer (st : Stripe.t)
        (domain subdomain rawValue : string) :
  Stripe.up st = true ->
  customers_of domain st = [] ->
  segment_without_space rawValue = true ->
  snd (updateDNSRecord domain subdomain "MX" rawValue st) = with_new_customer st domain
  /\ forall q qs,
       topDomain (parseDomainParts (qname q)) = domain ->
       _handleRequest (with_new_customer st domain) (q :: qs) = Ok [].
Proof.
  intros Hup Hc Hbad. split.
  - rewrite (update_new _ _ _ _ st Hup Hc).
    unfold updated. now rewrite (formatValue_MX_throws _ Hbad).
  - intros q qs Hq.
    rewrite (handle_record_set (with_new_customer st domain) q qs
               (new_customer st domain) [] []); [| | reflexivity..].
    { unfold resolved. cbn [records_of]. now destruct (_ || _). }
    rewrite Hq. unfold Stripe.customers_list.
    cbn [with_new_customer Stripe.up Stripe.customers filter new_customer Stripe.email].
    rewrite String.eqb_refl. reflexivity.
Qed.

Lemma bad_mx_still_creates_customer_witness :
  snd (updateDNSRecord "example.com" "@" "MX" "mail.example.com" empty_account)
  = bare_customer
  /\ _handleRequest bare_customer
                    [{| qname := "constructor.example.com"; qtype := Packet.TYPE.A |}]
     = Ok [].
Proof.
  destruct (bad_mx_still_creates_customer empty_account "example.com" "@"
              "mail.example.com" eq_refl eq_refl eq_refl) as [H1 H2].
  split; [exact H1|].
  exact (H2 {| qname := "constructor.example.com"; qtype := Packet.TYPE.A |} [] eq_refl).
Defined.

End StoreAfterUpdate.

Section FreshRecords.

Lemma merge_empty (label type : string) (v : value) :
  is_inherited label = false ->
  (type =? "__proto__")%string = false ->
  merge (VObj []) label type v = Ok (VObj [(label, VObj [(type, v)])]).
Proof.
  intros Hl Ht. rewrite merge_object; [reflexivity | discriminate | exact Hl | exact Ht].
Qed.

Lemma json_value_single (label type : string) (v : value) :
  json_value v = true -> json_value (VObj [(label, VObj [(type, v)])]) = true.
Proof. intros J. cbn. now rewrite J. Qed.

(** X14. When the stored text of the customer does not parse, the update
    starts from an empty record set: once accepted, under a label that is
    not an inherited name, the customer holds the written (label, type) pair
    and nothing else. (The stored text is taken without a backslash: the
    parser of the model and the one of the runtime then refuse the same
    texts.) *)
Theorem garbled_records_are_replaced (st : Stripe.t) (c : Stripe.customer)
        (others : list Stripe.customer)
        (domain subdomain recordType rawValue : string) (v : value) (e : error) :
  Stripe.up st = true ->
  customers_of domain st = c :: others ->
  JsString.contains JSON.backslash (dns_records_text c) = false ->
  JSON.parse (dns_records_text c) = Throw e ->
  is_inherited (formatSubdomain subdomain) = false ->
  formatValue recordType rawValue = Ok v ->
  json_value v = true ->
  accepted domain (VObj [(formatSubdomain subdomain, VObj [(recordType, v)])]) = true ->
  exists c' rest,
    customers_of domain (snd (updateDNSRecord domain subdomain recordType rawValue st))
    = c' :: rest
    /\ JSON.parse (dns_records_text c')
       = Ok (VObj [(formatSubdomain subdomain, VObj [(recordType, v)])]).
Proof.
  intros Hup Hc _ Hp Hsub Hf J Hacc.
  rewrite (update_existing _ _ _ _ st c others Hup Hc). cbn [snd].
  unfold updated, existing_records, bind.
  rewrite Hp, Hf, (merge_empty _ _ _ Hsub (written_type _ _ _ Hf J)).
  destruct (stored_for_first_customer _ _ _ _ _ Hup Hc Hacc) as [rest E].
  eexists. exists rest. split; [exact E|].
  apply written_text_parses, json_value_single, J.
Qed.

Lemma garbled_records_are_replaced_witness :
  exists c' rest,
    customers_of "example.com" (snd (updateDNSRecord "example.com" "www" "A" "1.2.3.4" garbled))
    = c' :: rest
    /\ JSON.parse (dns_records_text c') = Ok (VObj [("www", VObj [("A", VArr [VStr "1.2.3.4"])])]).
Proof.
  eapply (garbled_records_are_replaced garbled _ [] "example.com" "www" "A" "1.2.3.4"
            (VArr [VStr "1.2.3.4"]) SyntaxError); reflexivity.
Defined.

Lemma fresh_id_above (st : Stripe.t) (c : Stripe.customer) :
  In c (Stripe.customers st) -> Stripe.id c < Stripe.fresh_id st.
Proof.
  unfold Stripe.fresh_id. induction (Stripe.customers st) as [|x l IH]; [intros []|].
  cbn [fold_right]. intros [<-|H]; [lia|]. specialize (IH H). lia.
Qed.

Lemma map_fresh_id (st : Stripe.t) (f : Stripe.customer -> Stripe.customer) :
  List.map (fun c => if Stripe.id c =? Stripe.fresh_id st then f c else c)
           (Stripe.customers st)
  = Stripe.customers st.
Proof.
  rewrite <- (map_id (Stripe.customers st)) at 2. apply map_ext_in.
  intros c Hin. pose proof (fresh_id_above st c Hin) as L.
  destruct (Nat.eqb_spec (Stripe.id c) (Stripe.fresh_id st)); [lia | reflexivity].
Qed.

(** X15. The first update for a domain that has no customer, under a label
    that is not an inherited name, once accepted: one customer is added in
    front of the others, for [dns@domain], and it holds exactly the written
    (label, type) pair; the customers that were there are unchanged. *)
Theorem first_update_creates_customer (st : Stripe.t)
        (domain subdomain recordType rawValue : string) (v : value) :
  Stripe.up st = true ->
  customers_of domain st = [] ->
  is_inherited (formatSubdomain subdomain) = false ->
  formatValue recordType rawValue = Ok v ->
  json_value v = true ->
  accepted domain (VObj [(formatSubdomain subdomain, VObj [(recordType, v)])]) = true ->
  exists c',
    Stripe.customers (snd (updateDNSRecord domain subdomain recordType rawValue st))
    = c' :: Stripe.customers st
    /\ Stripe.email c' = ("dns@" ++ domain)%string
    /\ JSON.parse (dns_records_text c')
       = Ok (VObj [(formatSubdomain subdomain, VObj [(recordType, v)])]).
Proof.
  intros Hup Hc Hsub Hf J Hacc.
  rewrite (update_new _ _ _ _ st Hup Hc). cbn [snd].
  unfold updated, bind.
  rewrite Hf, (merge_empty _ _ _ Hsub (written_type _ _ _ Hf J)).
  rewrite customers_update_run;
    [| reflexivity | cbn; now rewrite Nat.eqb_refl | exact Hacc].
  cbn [Stripe.customers with_new_customer List.map new_customer Stripe.id].
  rewrite Nat.eqb_refl, map_fresh_id.
  eexists. split; [reflexivity|]. split; [reflexivity|].
  apply written_text_parses, json_value_single, J.
Qed.

Lemma first_update_creates_customer_witness :
  exists c',
    Stripe.customers (snd (updateDNSRecord "example.com" "@" "A" "1.2.3.4,5.6.7.8"
                                           empty_account))
    = c' :: Stripe.customers empty_account
    /\ Stripe.email c' = "dns@example.com"
    /\ JSON.parse (dns_records_text c')
       = Ok (VObj [("@", VObj [("A", VArr [VStr "1.2.3.4"; VStr "5.6.7.8"])])]).
Proof.
  apply (first_update_creates_customer empty_account "example.com" "@" "A"
           "1.2.3.4,5.6.7.8" (VArr [VStr "1.2.3.4"; VStr "5.6.7.8"])); reflexivity.
Defined.

End FreshRecords.

Section OtherDomains.

Lemma app_inv_prefix (p a b : string) : (p ++ a)%string = (p ++ b)%string -> a = b.
Proof. induction p as [|c p IH]; cbn; [auto | intros [= H]; auto]. Qed.

Lemma same_id_same_customer (cs : list Stripe.customer) (a b : Stripe.customer) :
  NoDup (List.map Stripe.id cs) -> In a cs -> In b cs -> Stripe.id a = Stripe.id b ->
  a = b.
Proof.
  induction cs as [|x l IH]; [intros _ []|].
  cbn [List.map]. intros N Ha Hb E. inversion N as [|? ? Hx Hl]; subst.
  destruct Ha as [<-|Ha], Hb as [<-|Hb]; try reflexivity.
  - exfalso. apply Hx. rewrite E. now apply in_map.
  - exfalso. apply Hx. rewrite <- E. now apply in_map.
  - now apply IH.
Qed.

(** Rewriting the metadata of customers that are not of a domain does not
    change the customers of that domain. *)
Lemma filter_untouched (mail : string) (cid : nat) (meta : list (string * string))
      (cs : list Stripe.customer) :
  (forall c, In c cs -> Stripe.id c = cid -> Stripe.email c <> mail) ->
  filter (fun c => (Stripe.email c =? mail)%string)
         (List.map (fun c => if Stripe.id c =? cid then Stripe.set_metadata meta c else c) cs)
  = filter (fun c => (Stripe.email c =? mail)%string) cs.
Proof.
  induction cs as [|x l IH]; intros H; cbn [List.map filter]; [reflexivity|].
  rewrite IH by (intros c Hc; apply H; now right).
  destruct (Nat.eqb_spec (Stripe.id x) cid) as [E|_]; [|reflexivity].
  cbn [Stripe.set_metadata Stripe.email].
  destruct (String.eqb_spec (Stripe.email x) mail) as [M|_]; [|reflexivity].
  exfalso. exact (H x (or_introl eq_refl) E M).
Qed.

Lemma customers_update_cases (st : Stripe.t) (cid : nat) (meta : list (string * string)) :
  Stripe.up st = true ->
  snd (Stripe.customers_update cid meta st) = st
  \/ snd (Stripe.customers_update cid meta st)
     = {| Stripe.up := true;
          Stripe.customers :=
            List.map (fun c => if Stripe.id c =? cid then Stripe.set_metadata meta c else c)
                     (Stripe.customers st) |}.
Proof.
  intros Hup. unfold Stripe.customers_update. rewrite Hup. cbn [andb].
  destruct (existsb _ _ && forallb _ _); [now right | now left].
Qed.

(** What an update leaves of the customers of another domain. *)
Lemma update_keeps_other_customers (st : Stripe.t)
      (domain subdomain recordType rawValue other : string) :
  unique_ids st -> other <> domain ->
  Stripe.up (snd (updateDNSRecord domain subdomain recordType rawValue st)) = Stripe.up st
  /\ customers_of other (snd (updateDNSRecord domain subdomain recordType rawValue st))
     = customers_of other st.
Proof.
  intros U Hne.
  assert (Hmail : ("dns@" ++ domain)%string <> ("dns@" ++ other)%string).
  { intros E. apply Hne. symmetry. exact (app_inv_prefix _ _ _ E). }
  destruct (Stripe.up st) eqn:Hup; [|rewrite update_down by exact Hup; now split].
  destruct (customers_of domain st) as [|c others] eqn:Hc.
  - rewrite (update_new _ _ _ _ st Hup Hc). cbn [snd].
    assert (K : customers_of other (with_new_customer st domain) = customers_of other st).
    { unfold customers_of. cbn [with_new_customer Stripe.customers filter new_customer
                                  Stripe.email].
      destruct (String.eqb_spec ("dns@" ++ domain) ("dns@" ++ other)); [contradiction|].
      reflexivity. }
    destruct (updated _ _ _ _) as [d|]; [|now split].
    destruct (customers_update_cases (with_new_customer st domain) (Stripe.fresh_id st)
                (new_metadata domain d) eq_refl) as [-> | ->]; [now split|].
    split; [reflexivity|]. unfold customers_of in *. cbn [Stripe.customers].
    rewrite filter_untouched; [exact K|].
    cbn [with_new_customer Stripe.customers].
    intros c0 [<-|Hin] E; [exact Hmail|].
    pose proof (fresh_id_above st c0 Hin). lia.
  - rewrite (update_existing _ _ _ _ st c others Hup Hc). cbn [snd].
    destruct (updated _ _ _ _) as [d|]; [|now split].
    destruct (customers_update_cases st (Stripe.id c) (new_metadata domain d) Hup)
      as [-> | ->]; [now split|].
    split; [reflexivity|]. unfold customers_of. cbn [Stripe.customers].
    apply filter_untouched. intros c0 Hin E.
    destruct (customers_of_head _ _ _ _ Hc) as [Hcin Hcmail].
    rewrite (same_id_same_customer _ c0 c U Hin Hcin E), Hcmail. exact Hmail.
Qed.

(** The handler reads the store through the customers of the apex only. *)
Lemma handler_reads_apex_only (st st' : Stripe.t) (q : question) (qs : list question) :
  Stripe.up st' = Stripe.up st ->
  customers_of (topDomain (parseDomainParts (qname q))) st'
  = customers_of (topDomain (parseDomainParts (qname q))) st ->
  _handleRequest st' (q :: qs) = _handleRequest st (q :: qs).
Proof.
  intros Hup Hc.
  assert (L : forall label,
             fst (lookupDnsRecords (topDomain (parseDomainParts (qname q))) label st')
             = fst (lookupDnsRecords (topDomain (parseDomainParts (qname q))) label st)).
  { intros label. unfold lookupDnsRecords, try_catchST, bindST, Stripe.customers_list.
    unfold customers_of in Hc. rewrite Hup, Hc.
    destruct (Stripe.up st); [|reflexivity].
    destruct (firstn 1 _); [reflexivity|].
    unfold lift. destruct (try_catch _ _); reflexivity. }
  unfold _handleRequest, pipeline. now rewrite L.
Qed.

(** X16. With unique customer ids, an update for one domain changes no
    response to a query whose apex is another domain, whether the update
    succeeds, is refused or raises. *)
Theorem update_leaves_other_domains (st : Stripe.t)
        (domain subdomain recordType rawValue : string)
        (q : question) (qs : list question) :
  unique_ids st ->
  topDomain (parseDomainParts (qname q)) <> domain ->
  _handleRequest (snd (updateDNSRecord domain subdomain recordType rawValue st)) (q :: qs)
  = _handleRequest st (q :: qs).
Proof.
  intros U Hne.
  destruct (update_keeps_other_customers st domain subdomain recordType rawValue
              _ U Hne) as [Hup Hc].
  now apply handler_reads_apex_only.
Qed.

Lemma update_leaves_other_domains_witness :
  _handleRequest (snd (updateDNSRecord "example.org" "www" "A" "8.8.8.8" two_domains))
                 [{| qname := "example.com"; qtype := Packet.TYPE.A |}]
  = _handleRequest two_domains [{| qname := "example.com"; qtype := Packet.TYPE.A |}].
Proof.
  apply (update_leaves_other_domains two_domains "example.org" "www" "A" "8.8.8.8"
           {| qname := "example.com"; qtype := Packet.TYPE.A |} []).
  - unfold unique_ids. vm_compute. repeat constructor; cbn; intuition discriminate.
  - discriminate.
Defined.

End OtherDomains.

Section ReadYourWrites.

Lemma forEach_strings (name : string) (l : list string) (answers : list answer) :
  forEach_list (add_A name) (List.map VStr l) answers
  = (Ok tt,
     answers ++ List.map (fun s => {| name := name; type := Packet.TYPE.A;
                                      class := Packet.CLASS.IN; ttl := 300;
                                      rdata := Address (VStr s) |}) l).
Proof.
  revert answers. induction l as [|s rest IH]; intros answers; cbn [List.map forEach_list].
  - unfold ret. now rewrite app_nil_r.
  - unfold bindST at 1. rewrite add_A_string. rewrite IH, <- app_assoc. reflexivity.
Qed.

(** An A query on an entry whose A list holds strings. *)
Lemma handle_A_list (st : Stripe.t) (q : question) (qs : list question)
      (recordSet : value) (l : list string) :
  fst (lookupDnsRecords (topDomain (parseDomainParts (qname q)))
                        (subdomain (parseDomainParts (qname q))) st) = Ok recordSet ->
  truthy recordSet = true ->
  get_prop recordSet "A" = Ok (VArr (List.map VStr l)) ->
  qtype q = Packet.TYPE.A ->
  _handleRequest st (q :: qs)
  = Ok (List.map (fun s => {| name := qname q; type := Packet.TYPE.A;
                              class := Packet.CLASS.IN; ttl := 300;
                              rdata := Address (VStr s) |}) l).
Proof.
  intros L T G Q.
  unfold _handleRequest, try_catchST, pipeline, bindST at 1, lift at 1.
  rewrite L, T, Q. unfold addRecordsToResponse.
  change (Packet.TYPE.A =? Packet.TYPE.A)%Z with true. cbv iota.
  unfold bindST, lift. rewrite G. cbn [truthy forEach].
  rewrite forEach_strings. reflexivity.
Qed.

Lemma json_value_strings (l : list string) :
  json_value (VArr (List.map VStr l)) = true.
Proof. cbn [json_value]. induction l; cbn; auto. Qed.

Lemma shape_of_set (rs : RecordSet) (label : string) (e : value) :
  assoc label (List.map (fun e => (fst e, js_of_records (snd e))) rs) = Some e ->
  truthy e = true -> exists ps, e = VObj ps.
Proof.
  intros He _. rewrite assoc_js_of_set in He.
  destruct (records_of _ rs); [|discriminate]. injection He as <-.
  eexists. reflexivity.
Qed.

(** X18. Read your writes, for A records. After an accepted A update of a
    label that is not an inherited name, for a domain whose customer holds a
    valid record set, an A query for a name that parses to that domain and
    label is answered with one A answer per comma-separated piece of the
    written value, trimmed, in the written order. *)
Theorem read_your_A_write (st : Stripe.t) (c : Stripe.customer)
        (others : list Stripe.customer) (domain sub rawValue : string)
        (rs : RecordSet) (q : question) (qs : list question) :
  Stripe.up st = true ->
  customers_of domain st = c :: others ->
  JSON.parse (dns_records_text c) = Ok (js_of_set rs) ->
  valid_set rs = true ->
  is_inherited (formatSubdomain sub) = false ->
  (forall d, updated sub "A" rawValue (js_of_set rs) = Ok d ->
             accepted domain d = true) ->
  parseDomainParts (qname q)
  = {| topDomain := domain; subdomain := formatSubdomain sub |} ->
  qtype q = Packet.TYPE.A ->
  _handleRequest (snd (updateDNSRecord domain sub "A" rawValue st)) (q :: qs)
  = Ok (List.map (fun s => {| name := qname q; type := Packet.TYPE.A;
                              class := Packet.CLASS.IN; ttl := 300;
                              rdata := Address (VStr (JsString.trim s)) |})
                 (JsString.split "," rawValue)).
Proof.
  intros Hup Hc Hparse Hvalid Hsub Hacc Hname Htype.
  set (label := formatSubdomain sub) in *.
  set (v := VArr (List.map VStr (List.map JsString.trim (JsString.split "," rawValue)))).
  assert (Hf : formatValue "A" rawValue = Ok v).
  { unfold formatValue, v. cbn [String.eqb Ascii.eqb Bool.eqb orb].
    now rewrite map_map. }
  pose proof (merge_object _ label "A" v (shape_of_set rs label) Hsub eq_refl) as Hm.
  fold (js_of_set rs) in Hm.
  set (entry := assoc_set "A" v _) in Hm. set (d := VObj _) in Hm.
  assert (Hu : updated sub "A" rawValue (js_of_set rs) = Ok d).
  { unfold updated, bind. rewrite Hf. exact Hm. }
  assert (Jd : json_value d = true).
  { apply (json_value_merge _ label "A" v d (shape_of_set rs label) Hsub eq_refl);
      [| apply json_value_strings | exact Hm].
    now apply json_value_js_of_set. }
  rewrite (update_existing _ _ _ _ st c others Hup Hc). cbn [snd].
  unfold existing_records. rewrite Hparse, Hu.
  destruct (stored_for_first_customer _ _ _ _ d Hup Hc (Hacc d Hu)) as [rest Hfirst].
  assert (Hup' : Stripe.up (snd (Stripe.customers_update (Stripe.id c)
                                   (new_metadata domain d) st)) = true).
  { destruct (customers_update_cases st (Stripe.id c) (new_metadata domain d) Hup)
      as [-> | ->]; [exact Hup | reflexivity]. }
  set (st' := snd (Stripe.customers_update _ _ st)) in *.
  assert (Hlist : fst (Stripe.customers_list 1
                         ("dns@" ++ topDomain (parseDomainParts (qname q))) st')
                  = Ok (Stripe.set_metadata (new_metadata domain d) c :: [])).
  { rewrite Hname. cbn [topDomain]. unfold Stripe.customers_list. rewrite Hup'.
    unfold customers_of in Hfirst. rewrite Hfirst. reflexivity. }
  pose proof (lookup_resolves st' _ (subdomain (parseDomainParts (qname q))) _ _ d
                Hlist (written_text_parses domain d c Jd)) as L.
  assert (R : resolve d (subdomain (parseDomainParts (qname q))) = Ok (VObj entry)).
  { rewrite Hname. cbn [subdomain]. fold label.
    unfold resolve, d. cbn [get_prop bind]. rewrite assoc_set_same. reflexivity. }
  rewrite R in L.
  rewrite (handle_A_list st' q qs (VObj entry)
             (List.map JsString.trim (JsString.split "," rawValue))
             L eq_refl); [| | exact Htype].
  - now rewrite !map_map.
  - unfold entry. cbn [get_prop]. now rewrite assoc_set_same.
Qed.

Lemma read_your_A_write_witness :
  _handleRequest (snd (updateDNSRecord "example.com" "www" "A" "1.1.1.1, 2.2.2.2"
                                       (serving apex_with_A)))
                 [{| qname := "www.example.com"; qtype := Packet.TYPE.A |}]
  = Ok [answer_of "www.example.com" A (AValue "1.1.1.1");
        answer_of "www.example.com" A (AValue "2.2.2.2")].
Proof.
  eapply (read_your_A_write (serving apex_with_A) _ [] "example.com" "www"
            "1.1.1.1, 2.2.2.2" apex_with_A
            {| qname := "www.example.com"; qtype := Packet.TYPE.A |} []).
  - reflexivity.
  - reflexivity.
  - vm_compute. reflexivity.
  - reflexivity.
  - reflexivity.
  - intros d H. vm_compute in H. injection H as <-. vm_compute. reflexivity.
  - reflexivity.
  - reflexivity.
Defined.

End ReadYourWrites.

Section OddWrites.

Lemma formatValue_other_type (recordType rawValue : string) :
  recordType <> "A" -> recordType <> "CNAME" -> recordType <> "MX" ->
  formatValue recordType rawValue = Ok VUndefined.
Proof.
  intros HA HC HM. unfold formatValue.
  apply String.eqb_neq in HA, HC, HM. now rewrite HA, HC, HM.
Qed.

Lemma assoc_set_id (k : string) (v : value) (props : list (string * value)) :
  assoc k props = Some v -> assoc_set k v props = props.
Proof.
  induction props as [|[k0 v0] rest IH]; cbn [assoc assoc_set]; [discriminate|].
  destruct (String.eqb_spec k0 k) as [->|_].
  - now intros [= ->].
  - intros H. now rewrite (IH H).
Qed.

Lemma assoc_none_fresh (k : string) (props : list (string * value)) :
  assoc k props = None ->
  forallb (fun a => negb (a =? k)%string) (List.map fst props) = true.
Proof.
  induction props as [|[k0 v0] rest IH]; cbn [assoc List.map fst forallb]; [reflexivity|].
  destruct (k0 =? k)%string; [discriminate | exact IH].
Qed.

Lemma fresh_assoc_none (k : string) (props : list (string * value)) :
  forallb (fun a => negb (a =? k)%string) (List.map fst props) = true ->
  assoc k props = None.
Proof.
  induction props as [|[k0 v0] rest IH]; cbn [List.map fst forallb assoc];
    [reflexivity|].
  intros H. apply andb_true_iff in H. destruct H as [H0 H].
  apply negb_true_iff in H0. rewrite H0. exact (IH H).
Qed.

(** The text of an object does not show a property that holds
    [undefined]. *)
Lemma ser_drops_undefined (k : string) (props : list (string * value)) :
  forallb (fun a => negb (a =? k)%string) (List.map fst props) = true ->
  JSON.ser (VObj (assoc_set k VUndefined props)) = JSON.ser (VObj props).
Proof.
  intros H. rewrite (assoc_set_fresh _ _ _ H). cbn [JSON.ser].
  rewrite flat_map_app. cbn [flat_map]. now rewrite !app_nil_r.
Qed.

(** The text of an object depends on an entry through the text of the
    entry. *)
Lemma ser_assoc_set (k : string) (x y : list (string * value))
      (props : list (string * value)) :
  JSON.ser (VObj x) = JSON.ser (VObj y) ->
  JSON.ser (VObj (assoc_set k (VObj x) props))
  = JSON.ser (VObj (assoc_set k (VObj y) props)).
Proof.
  intros E. cbn [JSON.ser]. f_equal. f_equal. f_equal.
  induction props as [|[k0 v0] rest IH]; cbn [assoc_set flat_map].
  - now rewrite E.
  - destruct (k0 =? k)%string; cbn [flat_map]; [now rewrite E | now rewrite IH].
Qed.

Lemma type_names_fresh (ty : string) (tr : TypeRecords) :
  ty <> "A" -> ty <> "CNAME" -> ty <> "MX" ->
  forallb (fun a => negb (a =? ty)%string)
          (List.map fst (List.map (fun e => (type_name (fst e),
                                             VArr (List.map js_of_value (snd e)))) tr))
  = true.
Proof.
  intros HA HC HM. induction tr as [|[t vs] rest IH]; cbn [List.map fst forallb];
    [reflexivity|].
  rewrite IH, andb_true_r. apply negb_true_iff, String.eqb_neq.
  destruct t; cbn; congruence.
Qed.

Lemma js_of_set_with_label (label : string) (rs : RecordSet) :
  VObj (assoc_set label
          (VObj (entry_props
                   (assoc label (List.map (fun e => (fst e, js_of_records (snd e))) rs))))
          (List.map (fun e => (fst e, js_of_records (snd e))) rs))
  = js_of_set (with_label label rs).
Proof.
  unfold with_label, js_of_set.
  pose proof (assoc_js_of_set label rs) as A.
  destruct (records_of label rs) as [tr|]; cbn [option_map] in A.
  - rewrite A. cbn [entry_props js_of_records]. fold (js_of_records tr).
    now rewrite (assoc_set_id _ _ _ A).
  - rewrite A. cbn [entry_props].
    rewrite (assoc_set_fresh _ _ _ (assoc_none_fresh _ _ A)), map_app. reflexivity.
Qed.

Lemma records_of_with_label (label : string) (rs : RecordSet) :
  records_of label rs = None -> records_of label (with_label label rs) = Some [].
Proof.
  intros H. unfold with_label. rewrite H.
  induction rs as [|[l tr] rest IH]; cbn [app records_of] in *.
  - now rewrite String.eqb_refl.
  - destruct (l =? label)%string; [discriminate H | exact (IH H)].
Qed.

(** X13. An update with a record type other than A, CNAME and MX, under a
    label that is not an inherited name, writes no value: what is read back
    after it is the record set as it was, except that a label without an
    entry has got an empty one; that entry is then what the label resolves
    to, in place of the wildcard. *)
Theorem unknown_type_stores_no_value (rs : RecordSet)
        (sub recordType rawValue : string) :
  valid_set rs = true ->
  is_inherited (formatSubdomain sub) = false ->
  recordType <> "A" -> recordType <> "CNAME" -> recordType <> "MX" ->
  exists d,
    updated sub recordType rawValue (js_of_set rs) = Ok d
    /\ round_trip d = Ok (js_of_set (with_label (formatSubdomain sub) rs))
    /\ (records_of (formatSubdomain sub) rs = None ->
        resolved (formatSubdomain sub) (with_label (formatSubdomain sub) rs) = Some []).
Proof.
  intros V Hsub HA HC HM. set (label := formatSubdomain sub) in *.
  pose proof (merge_entry _ label recordType VUndefined (shape_of_set rs label) Hsub)
    as Hm.
  fold (js_of_set rs) in Hm.
  set (entry := entry_props
                  (assoc label (List.map (fun e => (fst e, js_of_records (snd e))) rs)))
    in *.
  assert (F : forallb (fun a => negb (a =? recordType)%string) (List.map fst entry)
              = true).
  { unfold entry. rewrite assoc_js_of_set.
    destruct (records_of label rs) as [tr|]; [|reflexivity].
    cbn [option_map entry_props js_of_records]. now apply type_names_fresh. }
  assert (J : json_value (js_of_set (with_label label rs)) = true).
  { rewrite <- js_of_set_with_label.
    apply json_value_assoc_set; [now apply json_value_js_of_set|].
    apply json_value_entry_props. now apply json_value_js_of_set. }
  pose proof (parse_stringify _ J) as RT.
  assert (R : records_of label rs = None ->
              resolved label (with_label label rs) = Some []).
  { intros H. unfold resolved. now rewrite (records_of_with_label _ _ H). }
  unfold updated. rewrite (formatValue_other_type _ _ HA HC HM). cbn [bind].
  fold label. rewrite Hm.
  destruct (recordType =? "__proto__")%string eqn:P.
  - assert (E : set_prop (VObj entry) recordType VUndefined = Ok (VObj entry)).
    { unfold set_prop, has_own. rewrite P, (fresh_assoc_none _ _ F). reflexivity. }
    rewrite E. cbn [bind]. unfold entry. rewrite js_of_set_with_label.
    eexists. split; [reflexivity|]. split; [exact RT | exact R].
  - rewrite (set_prop_plain _ recordType _ P). cbn [bind].
    eexists. split; [reflexivity|]. split; [|exact R].
    pose proof (ser_assoc_set label _ _
                  (List.map (fun e => (fst e, js_of_records (snd e))) rs)
                  (ser_drops_undefined recordType _ F)) as E.
    fold entry in E. unfold entry in E at 2. rewrite js_of_set_with_label in E.
    unfold round_trip, JSON.stringify. rewrite E.
    unfold round_trip, JSON.stringify in RT. cbn [js_of_set] in RT. exact RT.
Qed.

Lemma unknown_type_stores_no_value_witness :
  exists d,
    updated "new" "TXT" "hello" (js_of_set apex_with_A) = Ok d
    /\ round_trip d = Ok (js_of_set (apex_with_A ++ [("new", [])]))
    /\ (records_of "new" apex_with_A = None ->
        resolved "new" (with_label "new" apex_with_A) = Some []).
Proof.
  apply (unknown_type_stores_no_value apex_with_A "new" "TXT" "hello");
    [reflexivity | reflexivity | discriminate | discriminate | discriminate].
Defined.

(** X20. An MX segment whose priority does not start with a number is
    written with the priority [NaN], and what is read back from the store
    has the priority [null]. *)
Theorem non_numeric_priority_reads_null (segment priority exchange : string) :
  JsString.trim segment = (priority ++ " " ++ exchange)%string ->
  JsString.contains " " priority = false ->
  JsString.contains " " exchange = false ->
  parseInt10 priority = NaN ->
  exists entry,
    formatMX segment = Ok entry
    /\ round_trip entry
       = Ok (VObj [("priority", VNull); ("exchange", VStr (with_dot exchange))]).
Proof.
  intros Ht Hp Hx Hn. eexists. split; [exact (formatMX_one_space _ _ _ Ht Hp Hx)|].
  unfold mx_entry. rewrite Hn. fold (with_dot exchange).
  rewrite <- (parse_stringify
                (VObj [("priority", VNull); ("exchange", VStr (with_dot exchange))])
                eq_refl).
  unfold round_trip, JSON.stringify. cbn [JSON.ser List.flat_map List.map app].
  reflexivity.
Qed.

Lemma non_numeric_priority_reads_null_witness :
  exists entry,
    formatMX "high mail.example.com" = Ok entry
    /\ round_trip entry
       = Ok (VObj [("priority", VNull); ("exchange", VStr "mail.example.com.")]).
Proof.
  apply (non_numeric_priority_reads_null "high mail.example.com" "high"
                                         "mail.example.com"); reflexivity.
Defined.

End OddWrites.

(* ================================================================== *)
(** * The command line of the update tool *)
(* ================================================================== *)

Section CommandLine.

Lemma slice_from_two {T} (l : list T) : JsString.slice 2 None l = skipn 2 l.
Proof.
  destruct l as [|a [|b l]]; try reflexivity.
  unfold JsString.slice, JsString.rel_index.
  change (Z.to_nat 2) with 2. change (2 <? 0)%Z with false.
  cbn [List.length Nat.min skipn Nat.sub]. rewrite Nat.sub_0_r. apply firstn_all.
Qed.

(** X22. With fewer than four arguments after the script name the tool
    exits with status 1 and leaves the store alone; with four or more it
    runs the update on the first four, whatever follows them, and exits with
    status 0 whether or not the update went through. *)
Theorem main_exit_status (node script : string) (args : list string) (st : Stripe.t) :
  match args with
  | domain :: subdomain :: recordType :: value :: _ =>
      main (node :: script :: args) st
      = (Ok 0%Z, snd (updateDNSRecord domain subdomain recordType value st))
  | _ => main (node :: script :: args) st = (Ok 1%Z, st)
  end.
Proof.
  unfold main. rewrite slice_from_two. cbn [skipn].
  destruct args as [|a [|b [|c [|d rest]]]]; try reflexivity.
  cbn [List.length Nat.ltb Nat.leb]. unfold bindST, ret.
  pose proof (update_returns a b c d st) as E.
  destruct (updateDNSRecord a b c d st) as [r st']. cbn [fst] in E. now rewrite E.
Qed.

End CommandLine.
